(** * Crossref paginator: [query_all] of utilities.py

    A shallow embedding of the generator [query_all] and of the properties
    the specification states about it.

    The generator talks to three collaborators: [api_query] (one HTTP GET),
    [time.sleep] and the progress bar.  The HTTP side is modelled as a
    script, the list of outcomes of the successive calls of [api_query];
    everything the generator does to the outside (requests, sleeps, yielded
    items, progress-bar calls) is recorded as a trace of events.  The local
    variables of the generator frame form the state.  Calls to [logging] do
    not touch the state and are left out.

    Integers are Python's unbounded [int]s, here [Z].  The one float
    expression, [int(0.75 * rows)], follows the rounding of doubles
    ([int_075]).  [query_all] takes the product to have a value, as it has
    whenever [batch_size] is below [float_limit] in magnitude;
    [query_all_py] is the same loop with the [OverflowError] of a larger
    [rows], and the statements about the value of [rows] are made of it. *)

From Stdlib Require Import ZArith List String Bool Lia.
Import ListNotations.
Open Scope string_scope.
Open Scope list_scope.
Open Scope Z_scope.

(** ** Python values and primitives *)

(** The [cursor] variable holds [None] or a [str] (docstring of [query_all]);
    after a page it holds whatever JSON value [next-cursor] carried, a string
    or null. *)
Inductive cursor_value : Type :=
| PyNone
| PyStr (s : string).

(** Truth value of [cursor] in [if not cursor] / [if cursor]: [None] and the
    empty string are false. *)
Definition truthy (c : cursor_value) : bool :=
  match c with
  | PyNone => false
  | PyStr s => negb (String.eqb s "")
  end.

(** [l[:r]]: the first [r] elements, and for a negative [r] all but the last
    [-r] ones. *)
Definition slice_to {A : Type} (l : list A) (r : Z) : list A :=
  if 0 <=? r then firstn (Z.to_nat r) l
  else firstn (Z.to_nat (Z.of_nat (List.length l) + r)) l.

(** *** Float arithmetic: [int(0.75 * rows)]

    [rows] is an [int]; [0.75 * rows] converts it to a double, multiplies and
    rounds, and [int] truncates the product toward zero.  Doubles have a
    significand of 53 bits and round to nearest, halves to even. *)

(** The natural number [m] rounded to 53 significant bits: the pair [(q, e)]
    stands for [q * 2^e].  No integer is small enough to be subnormal. *)
Definition round53 (m : Z) : Z * Z :=
  let e := Z.log2 m - 52 in
  if e <=? 0 then (m, 0)
  else
    let q := m / 2 ^ e in
    let r := m mod 2 ^ e in
    let half := 2 ^ (e - 1) in
    (if (half <? r) || ((r =? half) && Z.odd q) then q + 1 else q, e).

(** [float(z)] exists when the rounded magnitude is below [2^1024]; otherwise
    CPython raises [OverflowError: int too large to convert to float]. *)
Definition converts (z : Z) : bool :=
  let (q, e) := round53 (Z.abs z) in q * 2 ^ e <? 2 ^ 1024.

(** The least magnitude that does not convert (see [converts_iff]). *)
Definition float_limit : Z := 2 ^ 1024 - 2 ^ 970.

(** The value of [int(0.75 * rows)] for a [rows] that converts:
    [float(rows)] is [q * 2^e] up to sign; the product [3 * q * 2^(e-2)] is
    rounded to [q' * 2^(e'+e-2)], which cannot overflow; [int] drops the
    fraction.  As long as [3 * |rows| < 2^53] nothing is rounded and the
    value is the integer quotient of [3 * rows] by 4 (see [int_075_exact]). *)
Definition int_075 (rows : Z) : Z :=
  let (q, e) := round53 (Z.abs rows) in
  let (q', e') := round53 (3 * q) in
  Z.sgn rows * ((q' * 2 ^ (e' + e)) / 4).

Arguments int_075 : simpl never.

(** An item of a page is opaque to the paginator; here it is its identifier. *)
Definition item : Type := string.

(** ** The collaborators *)

(** [message] of a payload; a field is [None] when its key is absent.
    [start_index] stands for [message['query']['start-index']]: either key
    missing raises the same [KeyError]. *)
Record message : Type := mkMessage {
  total_results : option Z;
  items : option (list item);
  next_cursor : option cursor_value;
  start_index : option Z
}.

(** The parsed JSON body, for a body that is a JSON object whose [message],
    when present, is an object (and so is its [query]): [status] is what
    [result.get('status')] returns.  A body of another JSON type makes line
    89 raise [AttributeError], and a null [message] or [query] makes the
    subscripts raise [TypeError]; such bodies are outside this model. *)
Record payload : Type := mkPayload {
  status : option string;
  message_of : option message
}.

(** Outcome of one call of [api_query]: it raises an [Exception], or returns
    a response with a status code and a body; the body is [None] when
    [response.json()] cannot parse it. *)
Inductive api_result : Type :=
| ApiRaises
| ApiResponse (status_code : Z) (body : option payload).

(** The progress bar, as far as [query_all] uses it: [tqdm(total=...)] starts
    with [n = 0] and [update(k)] adds [k] to [n]. *)
Record tqdm_bar : Type := mkBar {
  bar_total : Z;
  n : Z
}.

Definition update (k : Z) (b : tqdm_bar) : tqdm_bar :=
  {| bar_total := bar_total b; n := n b + k |}.

(** Keyword arguments of [api_query] besides [rows]: the dict [params]. *)
Record params : Type := mkParams {
  p_cursor : option cursor_value;
  p_offset : option Z
}.

Inductive event : Type :=
| Request (component : string) (rows : Z) (p : params)
| Sleep (seconds : Z)
| Yield (it : item)
| BarCreate (desc : string) (total : Z)
| BarUpdate (k : Z).

(** Exceptions that leave the generator on the inputs modelled here.  Reading
    an unassigned local raises [UnboundLocalError], a subclass of [NameError];
    [OverflowError] is the one of [0.75 * rows].  A body that parses to
    something else than the JSON object [payload] describes makes the code
    raise [AttributeError] or [TypeError]; such bodies are not modelled, and
    no statement below is about them. *)
Inductive exn : Type :=
| NameError (variable : string)
| KeyError (key : string)
| AssertionError
| JSONDecodeError
| OverflowError.

(** ** The generator frame *)

Record locals : Type := mkLocals {
  component : string;
  batch_size : Z;
  cursor : cursor_value;
  max_items : option Z;
  progress_bar : option tqdm_bar;
  incomplete : bool;
  successive_errors : Z;
  rows : Z;
  offset : option Z;
  total : option Z
}.

Definition set_cursor (c : cursor_value) (s : locals) : locals :=
  mkLocals (component s) (batch_size s) c (max_items s) (progress_bar s)
           (incomplete s) (successive_errors s) (rows s) (offset s) (total s).

Definition set_progress_bar (b : option tqdm_bar) (s : locals) : locals :=
  mkLocals (component s) (batch_size s) (cursor s) (max_items s) b
           (incomplete s) (successive_errors s) (rows s) (offset s) (total s).

Definition set_incomplete (b : bool) (s : locals) : locals :=
  mkLocals (component s) (batch_size s) (cursor s) (max_items s)
           (progress_bar s) b (successive_errors s) (rows s) (offset s)
           (total s).

Definition set_successive_errors (e : Z) (s : locals) : locals :=
  mkLocals (component s) (batch_size s) (cursor s) (max_items s)
           (progress_bar s) (incomplete s) e (rows s) (offset s) (total s).

Definition set_rows (r : Z) (s : locals) : locals :=
  mkLocals (component s) (batch_size s) (cursor s) (max_items s)
           (progress_bar s) (incomplete s) (successive_errors s) r (offset s)
           (total s).

Definition set_offset (o : option Z) (s : locals) : locals :=
  mkLocals (component s) (batch_size s) (cursor s) (max_items s)
           (progress_bar s) (incomplete s) (successive_errors s) (rows s) o
           (total s).

Definition set_total (t : option Z) (s : locals) : locals :=
  mkLocals (component s) (batch_size s) (cursor s) (max_items s)
           (progress_bar s) (incomplete s) (successive_errors s) (rows s)
           (offset s) t.

(** Lines 46-51: the frame before the loop.  [offset] and [total] are not yet
    assigned, except [offset = 0] when [cursor] is false. *)
Definition initial (component0 : string) (batch_size0 : Z)
    (cursor0 : cursor_value) (max_items0 : option Z) : locals :=
  {| component := component0;
     batch_size := batch_size0;
     cursor := cursor0;
     max_items := max_items0;
     progress_bar := None;
     incomplete := true;
     successive_errors := 0;
     rows := batch_size0;
     offset := if truthy cursor0 then None else Some 0;
     total := None |}.

(** ** A monad for the loop body: state, trace and exceptions *)

Definition gen (A : Type) : Type := locals -> (exn + A) * locals * list event.

Definition ret {A : Type} (a : A) : gen A := fun s => (inr a, s, []).

Definition raise {A : Type} (e : exn) : gen A := fun s => (inl e, s, []).

Definition bind {A B : Type} (m : gen A) (k : A -> gen B) : gen B :=
  fun s =>
    match m s with
    | (inl e, s1, ev1) => (inl e, s1, ev1)
    | (inr a, s1, ev1) =>
        match k a s1 with
        | (r, s2, ev2) => (r, s2, ev1 ++ ev2)
        end
    end.

Definition get : gen locals := fun s => (inr s, s, []).

Definition modify (f : locals -> locals) : gen unit :=
  fun s => (inr tt, f s, []).

Definition emit (evs : list event) : gen unit := fun s => (inr tt, s, evs).

Notation "x <- m ;; k" := (bind m (fun x => k))
  (at level 61, m at next level, right associativity).
Notation "m ;;; k" := (bind m (fun _ => k))
  (at level 61, right associativity).

(** [d[k]] on a dict: [KeyError] when the key is absent. *)
Definition subscript {A : Type} (k : string) (o : option A) : gen A :=
  match o with
  | Some a => ret a
  | None => raise (KeyError k)
  end.

(** Reading a local that may be unassigned. *)
Definition local {A : Type} (name : string) (o : option A) : gen A :=
  match o with
  | Some a => ret a
  | None => raise (NameError name)
  end.

(** ** The loop of [query_all] *)

(** Line 56: [{'cursor': cursor} if cursor else {'offset': offset}]. *)
Definition build_params : gen params :=
  s <- get ;;
  if truthy (cursor s)
  then ret {| p_cursor := Some (cursor s); p_offset := None |}
  else o <- local "offset" (offset s) ;;
       ret {| p_cursor := None; p_offset := Some o |}.

(** Lines 60-67 and 71-79: both failure branches do the same to the frame.
    [0.75 * rows] is taken to have a value, [int_075 rows]; [back_off_py]
    below is the same code for a [rows] of any size. *)
Definition back_off : gen unit :=
  modify (fun s => set_successive_errors (successive_errors s + 1) s) ;;;
  s <- get ;;
  emit [Sleep (2 ^ successive_errors s)] ;;;
  modify (fun s => set_rows (int_075 (rows s)) s).

(** Lines 82-83. *)
Definition rollback : gen unit :=
  modify (set_successive_errors 0) ;;;
  modify (fun s => set_rows (batch_size s) s).

(** Lines 95-99. *)
Definition init_progress_bar (result : payload) : gen unit :=
  s <- get ;;
  match progress_bar s with
  | Some _ => ret tt
  | None =>
      m <- subscript "message" (message_of result) ;;
      t <- subscript "total-results" (total_results m) ;;
      let t := match max_items s with
               | Some cap => Z.min t cap
               | None => t
               end in
      modify (set_total (Some t)) ;;;
      emit [BarCreate (component s) t] ;;;
      modify (set_progress_bar (Some {| bar_total := t; n := 0 |}))
  end.

(** Lines 102-104; returns the sliced list [items]. *)
Definition yield_items (result : payload) : gen (list item) :=
  s <- get ;;
  t <- local "total" (total s) ;;
  b <- local "progress_bar" (progress_bar s) ;;
  let remaining := t - n b in
  m <- subscript "message" (message_of result) ;;
  l <- subscript "items" (items m) ;;
  let taken := slice_to l remaining in
  emit (map Yield taken) ;;;
  ret taken.

(** Lines 107-119. *)
Definition update_position (result : payload) (taken : list item) : gen unit :=
  s <- get ;;
  if truthy (cursor s)
  then
    m <- subscript "message" (message_of result) ;;
    c <- subscript "next-cursor" (next_cursor m) ;;
    modify (set_cursor c)
  else
    m <- subscript "message" (message_of result) ;;
    match start_index m with
    | Some i =>
        o <- local "offset" (offset s) ;;
        if o =? i then ret tt else raise AssertionError
    | None => ret tt
    end ;;;
    o <- local "offset" (offset s) ;;
    modify (set_offset (Some (o + Z.of_nat (List.length taken)))).

(** Lines 120-121. *)
Definition finish_page (taken : list item) : gen unit :=
  s <- get ;;
  b <- local "progress_bar" (progress_bar s) ;;
  emit [BarUpdate (Z.of_nat (List.length taken))] ;;;
  modify (set_progress_bar (Some (update (Z.of_nat (List.length taken)) b))) ;;;
  modify (set_incomplete (negb (Nat.eqb (List.length taken) 0))).

Definition status_ok (result : payload) : bool :=
  match status result with
  | Some s => String.eqb s "ok"
  | None => false
  end.

(** Lines 57-121: one pass through the loop body after [params] is built,
    given what [api_query] did.  [continue] ends the pass. *)
Definition loop_body (response : api_result) : gen unit :=
  match response with
  | ApiRaises => back_off
  | ApiResponse status_code body =>
      if negb (status_code =? 200) then back_off
      else
        rollback ;;;
        result <- match body with
                  | Some r => ret r
                  | None => raise JSONDecodeError
                  end ;;
        if negb (status_ok result) then ret tt
        else
          init_progress_bar result ;;;
          taken <- yield_items result ;;
          update_position result taken ;;;
          finish_page taken
  end.

(** How a run over a script ends: the generator is exhausted
    ([StopIteration]), an exception left it, or the script ran out while the
    loop was about to call [api_query] with the given parameters. *)
Inductive ending : Type :=
| Exhausted
| Raised (e : exn)
| Awaiting (rows : Z) (p : params).

(** The [while incomplete] loop, one script entry per call of [api_query]. *)
Fixpoint loop (script : list api_result) (s : locals)
    : ending * locals * list event :=
  if negb (incomplete s) then (Exhausted, s, [])
  else
    match build_params s with
    | (inl e, s0, ev0) => (Raised e, s0, ev0)
    | (inr p, s0, ev0) =>
        match script with
        | [] => (Awaiting (rows s0) p, s0, ev0)
        | response :: rest =>
            match loop_body response s0 with
            | (inl e, s1, ev1) =>
                (Raised e, s1, ev0 ++ Request (component s0) (rows s0) p :: ev1)
            | (inr _, s1, ev1) =>
                match loop rest s1 with
                | (r, s2, ev2) =>
                    (r, s2,
                     ev0 ++ Request (component s0) (rows s0) p :: ev1 ++ ev2)
                end
            end
        end
    end.

(** [query_all(component, batch_size, cursor, max_items)] consumed to its
    end against a script. *)
Definition query_all (component0 : string) (batch_size0 : Z)
    (cursor0 : cursor_value) (max_items0 : option Z)
    (script : list api_result) : ending * locals * list event :=
  loop script (initial component0 batch_size0 cursor0 max_items0).

(** *** The loop for a [rows] of any size

    [loop] above takes [0.75 * rows] to have a value; that is so whenever
    [|batch_size| < float_limit] (see [query_all_py_refines]).  Python
    integers are unbounded, and for a larger [rows] the conversion to float
    raises.  The definitions below are the same code with that exception. *)

(** [int(0.75 * rows)] as CPython evaluates it. *)
Definition py_int_075 (rows : Z) : exn + Z :=
  if converts rows then inr (int_075 rows) else inl OverflowError.

(** Lines 60-67 and 71-79.  Line 66 is inside the [except] handler and line
    78 outside any [try]: an [OverflowError] there leaves the generator,
    after the increment and the sleep and before [rows] is assigned. *)
Definition back_off_py : gen unit :=
  modify (fun s => set_successive_errors (successive_errors s + 1) s) ;;;
  s <- get ;;
  emit [Sleep (2 ^ successive_errors s)] ;;;
  match py_int_075 (rows s) with
  | inr r => modify (set_rows r)
  | inl e => raise e
  end.

(** Lines 57-121; from line 81 on as in [loop_body]. *)
Definition loop_body_py (response : api_result) : gen unit :=
  match response with
  | ApiRaises => back_off_py
  | ApiResponse status_code body =>
      if negb (status_code =? 200) then back_off_py
      else loop_body response
  end.

Fixpoint loop_py (script : list api_result) (s : locals)
    : ending * locals * list event :=
  if negb (incomplete s) then (Exhausted, s, [])
  else
    match build_params s with
    | (inl e, s0, ev0) => (Raised e, s0, ev0)
    | (inr p, s0, ev0) =>
        match script with
        | [] => (Awaiting (rows s0) p, s0, ev0)
        | response :: rest =>
            match loop_body_py response s0 with
            | (inl e, s1, ev1) =>
                (Raised e, s1, ev0 ++ Request (component s0) (rows s0) p :: ev1)
            | (inr _, s1, ev1) =>
                match loop_py rest s1 with
                | (r, s2, ev2) =>
                    (r, s2,
                     ev0 ++ Request (component s0) (rows s0) p :: ev1 ++ ev2)
                end
            end
        end
    end.

Definition query_all_py (component0 : string) (batch_size0 : Z)
    (cursor0 : cursor_value) (max_items0 : option Z)
    (script : list api_result) : ending * locals * list event :=
  loop_py script (initial component0 batch_size0 cursor0 max_items0).

(** Projections of a run. *)
Definition ending_of (r : ending * locals * list event) : ending :=
  fst (fst r).
Definition frame_of (r : ending * locals * list event) : locals :=
  snd (fst r).
Definition trace_of (r : ending * locals * list event) : list event :=
  snd r.

(** What the consumer received, and what was sent. *)
Fixpoint yielded (tr : list event) : list item :=
  match tr with
  | [] => []
  | Yield it :: tr' => it :: yielded tr'
  | _ :: tr' => yielded tr'
  end.

Fixpoint requests (tr : list event) : list (Z * params) :=
  match tr with
  | [] => []
  | Request _ r p :: tr' => (r, p) :: requests tr'
  | _ :: tr' => requests tr'
  end.

Fixpoint sleeps (tr : list event) : list Z :=
  match tr with
  | [] => []
  | Sleep t :: tr' => t :: sleeps tr'
  | _ :: tr' => sleeps tr'
  end.

(** A well-formed page: HTTP 200 with an ["ok"] payload. *)
Definition ok_page (m : message) : api_result :=
  ApiResponse 200 (Some {| status := Some "ok"; message_of := Some m |}).

Definition page (total_results0 : Z) (items0 : list item)
    (next_cursor0 : option cursor_value) (start_index0 : option Z)
    : api_result :=
  ok_page {| total_results := Some total_results0;
             items := Some items0;
             next_cursor := next_cursor0;
             start_index := start_index0 |}.

(** The scenario of the specification: HTTP 500, then a page of 15 items. *)
Definition fifteen : list item :=
  ["a01"; "a02"; "a03"; "a04"; "a05"; "a06"; "a07"; "a08"; "a09"; "a10";
   "a11"; "a12"; "a13"; "a14"; "a15"].

(** ** Definitions used by the statements and proofs *)

(** A call that counts as an error: [api_query] raised, or the status code is
    not 200. *)
Definition is_failure (response : api_result) : bool :=
  match response with
  | ApiRaises => true
  | ApiResponse status_code _ => negb (status_code =? 200)
  end.

(** The frame after [k] failures in a row. *)
Definition after_failures (k : nat) (s : locals) : locals :=
  set_rows (Nat.iter k int_075 (rows s))
    (set_successive_errors (successive_errors s + Z.of_nat k) s).

(** The trace of [k] failures in a row: each request is followed by its
    sleep. *)
Fixpoint streak (c : string) (p : params) (k : nat) (r e : Z) : list event :=
  match k with
  | O => []
  | S k' => Request c r p :: Sleep (2 ^ (e + 1))
              :: streak c p k' (int_075 r) (e + 1)
  end.

(** What [build_params] returns, without the frame and the (empty) trace. *)
Definition params_of (s : locals) : exn + params :=
  if truthy (cursor s)
  then inr {| p_cursor := Some (cursor s); p_offset := None |}
  else match offset s with
       | Some o => inr {| p_cursor := None; p_offset := Some o |}
       | None => inl (NameError "offset")
       end.

(** [emitted]: the count the generator keeps in [progress_bar.n]. *)
Definition emitted (s : locals) : Z :=
  match progress_bar s with
  | Some b => n b
  | None => 0
  end.

(** [min(total, max_items)] when [max_items] is given. *)
Definition clamp (cap : option Z) (t : Z) : Z :=
  match cap with
  | Some c => Z.min t c
  | None => t
  end.

Ltac gen_unfold :=
  unfold loop_body, ok_page, rollback, init_progress_bar, yield_items,
    update_position, finish_page, back_off, bind, get, ret, raise, modify,
    emit, subscript, local, status_ok in *;
  cbn [status message_of negb Z.eqb Pos.eqb String.eqb Ascii.eqb Bool.eqb
       fst snd] in *.

(** Counts are natural numbers: the cap [max_items], when given, and the
    [total-results] a payload reports. *)
Definition cap_nonneg (cap : option Z) : Prop :=
  match cap with
  | Some c => 0 <= c
  | None => True
  end.

Definition reports_nonneg (response : api_result) : Prop :=
  match response with
  | ApiResponse _ (Some result) =>
      match message_of result with
      | Some m =>
          match total_results m with
          | Some T => 0 <= T
          | None => True
          end
      | None => True
      end
  | _ => True
  end.

(** [total] and the progress bar are assigned together, and the bar never
    runs past [total]. *)
Definition progress_inv (s : locals) : Prop :=
  match progress_bar s, total s with
  | None, None => True
  | Some b, Some t => 0 <= n b <= t
  | _, _ => False
  end.

Definition not_raised (e : ending) : Prop :=
  match e with
  | Raised _ => False
  | _ => True
  end.

(** A payload whose status is not ["ok"]. *)
Definition not_ok_payload : payload :=
  {| status := Some "error"; message_of := None |}.

(** The page size the specification states after [k] failures in a row:
    [round(batch_size * 0.75^k)], with Python's rounding of halves to even. *)
Definition round_half_even (num den : Z) : Z :=
  let q := num / den in
  let r := num mod den in
  if 2 * r <? den then q
  else if den <? 2 * r then q + 1
  else if Z.even q then q else q + 1.

Definition spec_current_rows (batch_size0 : Z) (k : nat) : Z :=
  round_half_even (batch_size0 * 3 ^ Z.of_nat k) (4 ^ Z.of_nat k).

Ltac simp_goal := cbn -[slice_to Z.add Z.sub Z.of_nat Z.min Z.pow].

(** The innermost scrutinee of the stuck matches of a term. *)
Ltac scrutinee t :=
  lazymatch t with
  | context [match ?x with _ => _ end] => scrutinee x
  | _ => t
  end.

Ltac break_match :=
  match goal with
  | |- context [match ?x with _ => _ end] =>
      let y := scrutinee x in destruct y eqn:?; simp_goal
  end.

(** Case analysis on everything a pass through [loop_body] looks at. *)
Ltac loop_body_all_cases H :=
  match type of H with
  | loop_body ?response ?s = _ =>
      revert H;
      destruct s as [c b cur mx pb inc se rw off tot];
      gen_unfold; simp_goal;
      repeat break_match;
      intros H; injection H as <- <- <-
  end.

(** A response after which the loop simply asks again. *)
Definition retried (response : api_result) : bool :=
  match response with
  | ApiRaises => true
  | ApiResponse code body =>
      if code =? 200
      then match body with
           | Some result => negb (status_ok result)
           | None => false
           end
      else true
  end.


Definition twenty : list item :=
  fifteen ++ ["a16"; "a17"; "a18"; "a19"; "a20"].

(** The two shapes of [params]. *)
Definition carries_cursor (rq : Z * params) : Prop :=
  p_offset (snd rq) = None
  /\ exists c, p_cursor (snd rq) = Some c /\ truthy c = true.

Definition carries_offset (rq : Z * params) : Prop :=
  p_cursor (snd rq) = None /\ exists o, p_offset (snd rq) = Some o.

(** The parameters of the first request. *)
Definition first_params (cur : cursor_value) : params :=
  if truthy cur
  then {| p_cursor := Some cur; p_offset := None |}
  else {| p_cursor := None; p_offset := Some 0 |}.

(** [rows] is a function of the error count. *)
Definition rows_inv (s : locals) : Prop :=
  0 <= successive_errors s
  /\ rows s
     = Nat.iter (Z.to_nat (successive_errors s)) int_075 (batch_size s).

(** The items a response offers: those of an HTTP 200 ["ok"] payload. *)
Definition page_items (response : api_result) : list item :=
  match response with
  | ApiResponse code (Some result) =>
      if (code =? 200) && status_ok result
      then match message_of result with
           | Some m => match items m with
                       | Some l => l
                       | None => []
                       end
           | None => []
           end
      else []
  | _ => []
  end.

(** A payload with status ["ok"] and whatever message. *)
Definition ok_payload (mo : option message) : api_result :=
  ApiResponse 200 (Some {| status := Some "ok"; message_of := mo |}).

(** A value of the query string. *)
Inductive value : Type :=
| IntValue (z : Z)
| CursorValue (c : cursor_value).

(** What [requests.get(url, kwargs, timeout=timeout)] is called with. *)
Record http_get : Type := mkGet {
  url : string;
  query : list (string * value);
  timeout : Z
}.

(** Lines 16-17: [api_query(component, timeout, **kwargs)].  The decorator
    [ratelimit.rate_limited(15)] only delays the call and is left out. *)
Definition api_query (component0 : string) (timeout0 : Z)
    (kwargs : list (string * value)) : http_get :=
  {| url := ("https://api.crossref.org/" ++ component0)%string;
     query := kwargs;
     timeout := timeout0 |}.

(** The items of the dict [params], at most one of each key. *)
Definition params_items (p : params) : list (string * value) :=
  match p_cursor p with
  | Some cu => [("cursor", CursorValue cu)]
  | None => []
  end
  ++ match p_offset p with
     | Some o => [("offset", IntValue o)]
     | None => []
     end.

(** Line 58: [api_query(component, rows=rows, **params)], with the default
    [timeout=60]. *)
Definition call_api_query (component0 : string) (rows0 : Z) (p : params)
    : http_get :=
  api_query component0 60 (("rows", IntValue rows0) :: params_items p).

(** The GETs of a trace. *)
Fixpoint http_gets (tr : list event) : list http_get :=
  match tr with
  | [] => []
  | Request c rw p :: tr' => call_api_query c rw p :: http_gets tr'
  | _ :: tr' => http_gets tr'
  end.

Fixpoint bar_creates (tr : list event) : list (string * Z) :=
  match tr with
  | [] => []
  | BarCreate d t :: tr' => (d, t) :: bar_creates tr'
  | _ :: tr' => bar_creates tr'
  end.

Fixpoint bar_updates (tr : list event) : list Z :=
  match tr with
  | [] => []
  | BarUpdate k :: tr' => k :: bar_updates tr'
  | _ :: tr' => bar_updates tr'
  end.

(** [total] and the bar are assigned together. *)
Definition bar_iff_total (s : locals) : Prop :=
  progress_bar s = None <-> total s = None.



(** The list [result['message']['items']] of a page, empty when the key is
    missing. *)
Definition items_of (m : message) : list item :=
  match items m with
  | Some l => l
  | None => []
  end.

(** The position update of lines 107-119 finds what it reads: [next-cursor]
    in cursor mode; in offset mode a [start-index], when present, equal to
    [offset]. *)
Definition position_ok (s : locals) (m : message) : Prop :=
  if truthy (cursor s) then next_cursor m <> None
  else match start_index m with
       | Some i => offset s = Some i
       | None => True
       end.

(** The pass over an ok page raises nothing: the payload has every key the
    pass reads ([total-results] only while there is no progress bar), and the
    [assert] holds. *)
Definition page_processed (s : locals) (m : message) : Prop :=
  (progress_bar s = None -> total_results m <> None)
  /\ items m <> None
  /\ position_ok s m.

(** * Properties *)

Example scenario_500_then_page :
  let r := query_all "works" 20 PyNone None
             [ApiResponse 500 None; page 100 fifteen None (Some 0)] in
  requests (trace_of r)
    = [(20, mkParams None (Some 0)); (15, mkParams None (Some 0))]
  /\ sleeps (trace_of r) = [2]
  /\ yielded (trace_of r) = fifteen
  /\ offset (frame_of r) = Some 15
  /\ rows (frame_of r) = 20
  /\ successive_errors (frame_of r) = 0
  /\ ending_of r = Awaiting 20 (mkParams None (Some 15)).
Proof. vm_compute. repeat split; reflexivity. Qed.

(** ** Elementary facts about the loop body *)

Lemma build_params_eq (s : locals) : build_params s = (params_of s, s, []).
Proof.
  unfold build_params, params_of, bind, get, ret, local, raise.
  destruct (truthy (cursor s)); [reflexivity|].
  destruct (offset s); reflexivity.
Qed.

Lemma loop_body_failure (response : api_result) (s : locals) :
  is_failure response = true ->
  loop_body response s
  = (inr tt, after_failures 1 s, [Sleep (2 ^ (successive_errors s + 1))]).
Proof.
  intros F.
  assert (B : back_off s
    = (inr tt, after_failures 1 s, [Sleep (2 ^ (successive_errors s + 1))])).
  { destruct s; reflexivity. }
  destruct response as [|code body]; simpl in *; [exact B|].
  rewrite F. exact B.
Qed.

Lemma loop_body_not_ok (result : payload) (s : locals) :
  status_ok result = false ->
  loop_body (ApiResponse 200 (Some result)) s
  = (inr tt, set_rows (batch_size s) (set_successive_errors 0 s), []).
Proof.
  intros H. unfold loop_body. simpl.
  unfold bind, rollback, modify, ret. simpl. rewrite H. reflexivity.
Qed.

Lemma after_failures_succ (k : nat) (s : locals) :
  after_failures k (after_failures 1 s) = after_failures (S k) s.
Proof.
  destruct s; unfold after_failures, set_rows, set_successive_errors; simpl.
  f_equal.
  - lia.
  - rewrite <- Nat.iter_succ_r. reflexivity.
Qed.

Lemma loop_step (response : api_result) (rest : list api_result)
    (s : locals) (p : params) :
  incomplete s = true ->
  params_of s = inr p ->
  loop (response :: rest) s
  = match loop_body response s with
    | (inl e, s1, ev1) => (Raised e, s1, Request (component s) (rows s) p :: ev1)
    | (inr _, s1, ev1) =>
        match loop rest s1 with
        | (r, s2, ev2) =>
            (r, s2, Request (component s) (rows s) p :: ev1 ++ ev2)
        end
    end.
Proof.
  intros I P. simpl. rewrite I, build_params_eq, P. simpl. reflexivity.
Qed.

Lemma loop_nil (s : locals) (p : params) :
  incomplete s = true ->
  params_of s = inr p ->
  loop [] s = (Awaiting (rows s) p, s, []).
Proof.
  intros I P. simpl. rewrite I, build_params_eq, P. reflexivity.
Qed.

Lemma loop_done (script : list api_result) (s : locals) :
  incomplete s = false -> loop script s = (Exhausted, s, []).
Proof. intros I. destruct script; simpl; rewrite I; reflexivity. Qed.

(** A streak of failures keeps the position and only shrinks [rows],
    counts and sleeps. *)
Lemma loop_failures (fs : list api_result) :
  forall (s : locals) (p : params),
  Forall (fun r => is_failure r = true) fs ->
  incomplete s = true ->
  params_of s = inr p ->
  loop fs s
  = (Awaiting (Nat.iter (List.length fs) int_075 (rows s)) p,
     after_failures (List.length fs) s,
     streak (component s) p (List.length fs) (rows s) (successive_errors s)).
Proof.
  induction fs as [|f fs IH]; intros s p F I P.
  - rewrite (loop_nil s p I P). unfold after_failures. simpl.
    rewrite Z.add_0_r. destruct s; reflexivity.
  - inversion F as [|? ? Ff Ffs]; subst.
    rewrite (loop_step f fs s p I P), (loop_body_failure f s Ff).
    assert (I1 : incomplete (after_failures 1 s) = true) by exact I.
    assert (P1 : params_of (after_failures 1 s) = inr p) by exact P.
    rewrite (IH (after_failures 1 s) p Ffs I1 P1).
    rewrite after_failures_succ.
    change (List.length (f :: fs)) with (S (List.length fs)).
    rewrite Nat.iter_succ_r. reflexivity.
Qed.

Lemma sleeps_streak (c : string) (p : params) (k : nat) :
  forall r e,
  sleeps (streak c p k r e)
  = map (fun i => 2 ^ (e + Z.of_nat i)) (seq 1 k).
Proof.
  induction k as [|k IH]; intros r e; [reflexivity|].
  simpl streak. simpl sleeps. rewrite IH.
  change (seq 1 (S k)) with (1%nat :: seq 2 k).
  rewrite <- (seq_shift k 1). cbn [map]. rewrite map_map. f_equal.
  apply map_ext. intros i. f_equal. lia.
Qed.

Lemma requests_streak (c : string) (p : params) (k : nat) :
  forall r e,
  requests (streak c p k r e)
  = map (fun i => (Nat.iter i int_075 r, p)) (seq 0 k).
Proof.
  induction k as [|k IH]; intros r e; [reflexivity|].
  simpl streak. simpl requests. rewrite IH.
  change (seq 0 (S k)) with (0%nat :: seq 1 k).
  rewrite <- (seq_shift k 0). cbn [map]. rewrite map_map. f_equal.
  apply map_ext. intros i. rewrite <- Nat.iter_succ_r. reflexivity.
Qed.

(** ** Float arithmetic *)

(** Rounding to 53 bits moves a number by at most an eighth of itself (in
    fact by [2^-53] of itself; an eighth is all the loop needs). *)
Lemma round53_bounds (m : Z) :
  0 <= m ->
  let (q, e) := round53 m in
  0 <= e /\ 0 <= q /\ 8 * (q * 2 ^ e) <= 9 * m /\ (0 < m -> 0 < q).
Proof.
  intros M. unfold round53.
  destruct (Z.leb_spec (Z.log2 m - 52) 0) as [E|E].
  - rewrite Z.pow_0_r. repeat split; lia.
  - set (e := Z.log2 m - 52) in *.
    assert (P : 0 < 2 ^ e) by (apply Z.pow_pos_nonneg; lia).
    assert (L : 0 < m) by (destruct m; try lia; cbn in e; lia).
    pose proof (Z.log2_spec m L) as [L1 _].
    assert (Q : 2 ^ Z.log2 m = 2 ^ 52 * 2 ^ e).
    { rewrite <- Z.pow_add_r by lia. f_equal. lia. }
    pose proof (Z.div_mod m (2 ^ e) ltac:(lia)) as D.
    pose proof (Z.mod_pos_bound m (2 ^ e) P) as R.
    assert (Q52 : 2 ^ 52 <= m / 2 ^ e).
    { apply Z.div_le_lower_bound; lia. }
    assert (C : 2 ^ 52 = 4503599627370496) by reflexivity.
    destruct ((2 ^ (e - 1) <? m mod 2 ^ e)
              || ((m mod 2 ^ e =? 2 ^ (e - 1)) && Z.odd (m / 2 ^ e)));
      repeat split; try lia; nia.
Qed.

(** [int_075] shrinks a positive size strictly and keeps 0. *)
Lemma int_075_nonneg_lt (r : Z) :
  0 <= r -> 0 <= int_075 r /\ (0 < r -> int_075 r < r).
Proof.
  intros H. unfold int_075. rewrite Z.abs_eq by lia.
  pose proof (round53_bounds r H) as B1.
  destruct (round53 r) as [m e]. destruct B1 as (E & M & B1 & P1).
  pose proof (round53_bounds (3 * m) ltac:(lia)) as B2.
  destruct (round53 (3 * m)) as [m' e']. destruct B2 as (E' & M' & B2 & _).
  assert (X : 0 <= m' * 2 ^ (e' + e)).
  { apply Z.mul_nonneg_nonneg; [lia | apply Z.pow_nonneg; lia]. }
  pose proof (Z.div_pos _ 4 X ltac:(lia)) as D0.
  assert (U : 64 * (m' * 2 ^ (e' + e)) <= 243 * r).
  { rewrite Z.pow_add_r by lia.
    assert (P : 0 <= 2 ^ e) by (apply Z.pow_nonneg; lia).
    assert (8 * (m' * 2 ^ e') * 2 ^ e <= 27 * m * 2 ^ e) by nia.
    nia. }
  pose proof (Z.mul_div_le (m' * 2 ^ (e' + e)) 4 ltac:(lia)) as D1.
  destruct (Z.sgn_spec r) as [[? S]|[[? S]|[? S]]]; rewrite S; split; lia.
Qed.

Lemma int_075_bounds (r : Z) : 0 <= r -> 0 <= int_075 r <= r.
Proof.
  intros H. pose proof (int_075_nonneg_lt r H) as [A B].
  destruct (Z.eq_dec r 0) as [->|N]; [vm_compute; split; discriminate|].
  specialize (B ltac:(lia)). lia.
Qed.

Lemma int_075_lt (r : Z) : 0 < r -> int_075 r < r.
Proof. intros H. apply int_075_nonneg_lt; lia. Qed.

(** [int_075] is odd: a negative size shrinks toward 0 as well. *)
Lemma int_075_opp (r : Z) : int_075 (- r) = - int_075 r.
Proof. unfold int_075. rewrite Z.abs_opp, Z.sgn_opp.
  destruct (round53 (Z.abs r)) as [m e]. destruct (round53 (3 * m)). lia. Qed.

Lemma int_075_abs (r : Z) :
  Z.abs (int_075 r) <= Z.abs r /\ 0 <= int_075 r * r.
Proof.
  destruct (Z.le_gt_cases 0 r) as [H|H].
  - pose proof (int_075_bounds r H). split; [lia | nia].
  - pose proof (int_075_bounds (- r) ltac:(lia)) as B.
    rewrite int_075_opp in B. split; [lia | nia].
Qed.

(** Where the float product is exact, [int_075] is the integer quotient. *)
Lemma int_075_exact (r : Z) :
  3 * Z.abs r < 2 ^ 53 -> int_075 r = Z.quot (3 * r) 4.
Proof.
  intros H.
  assert (R : forall m, 0 <= m < 2 ^ 53 -> round53 m = (m, 0)).
  { intros m M. unfold round53.
    destruct (Z.leb_spec (Z.log2 m - 52) 0) as [E|E]; [reflexivity|].
    exfalso. destruct (Z.eq_dec m 0) as [->|N]; [cbn in E; lia|].
    assert (Z.log2 m < 53) by (apply Z.log2_lt_pow2; lia). lia. }
  unfold int_075. rewrite (R (Z.abs r)) by lia.
  rewrite (R (3 * Z.abs r)) by lia.
  rewrite Z.add_0_l, Z.pow_0_r, Z.mul_1_r.
  destruct (Z.le_gt_cases 0 r) as [P|P].
  - rewrite Z.abs_eq by lia. rewrite Z.quot_div_nonneg by lia.
    destruct (Z.eq_dec r 0) as [->|N]; [reflexivity|].
    rewrite Z.sgn_pos by lia. lia.
  - rewrite Z.abs_neq by lia. rewrite Z.sgn_neg by lia.
    replace (3 * r) with (- (3 * - r)) by lia.
    rewrite Z.quot_opp_l by lia. rewrite Z.quot_div_nonneg by lia. lia.
Qed.

(** [float(z)] overflows from [2^1024 - 2^970] on: that number lies half-way
    between the largest double and [2^1024] and rounds to the even one. *)
Lemma converts_iff (z : Z) : converts z = true <-> Z.abs z < float_limit.
Proof.
  unfold converts, round53, float_limit.
  set (m := Z.abs z). assert (M : 0 <= m) by apply Z.abs_nonneg.
  clearbody m. clear z.
  assert (C53 : 2 ^ 53 < 2 ^ 1024 - 2 ^ 970) by (vm_compute; reflexivity).
  destruct (Z.leb_spec (Z.log2 m - 52) 0) as [E|E].
  - assert (m < 2 ^ 53).
    { destruct (Z.eq_dec m 0) as [->|N]; [reflexivity|].
      apply Z.log2_lt_pow2; lia. }
    rewrite Z.pow_0_r, Z.mul_1_r, Z.ltb_lt. lia.
  - set (e := Z.log2 m - 52) in *.
    assert (L : 0 < m) by (destruct m; try lia; cbn in e; lia).
    pose proof (Z.log2_spec m L) as [L1 L2].
    assert (P : 0 < 2 ^ e) by (apply Z.pow_pos_nonneg; lia).
    assert (Q : 2 ^ Z.log2 m = 2 ^ 52 * 2 ^ e).
    { rewrite <- Z.pow_add_r by lia. f_equal. lia. }
    assert (Q' : 2 ^ Z.succ (Z.log2 m) = 2 ^ 53 * 2 ^ e).
    { rewrite <- Z.pow_add_r by lia. f_equal. lia. }
    pose proof (Z.div_mod m (2 ^ e) ltac:(lia)) as D.
    pose proof (Z.mod_pos_bound m (2 ^ e) P) as R.
    assert (Q52 : 2 ^ 52 <= m / 2 ^ e) by (apply Z.div_le_lower_bound; lia).
    assert (Q53 : m / 2 ^ e < 2 ^ 53) by (apply Z.div_lt_upper_bound; lia).
    set (q := m / 2 ^ e) in *. set (r := m mod 2 ^ e) in *.
    rewrite Z.ltb_lt.
    assert (C52 : 2 ^ 52 = 4503599627370496) by reflexivity.
    assert (C53' : 2 ^ 53 = 9007199254740992) by reflexivity.
    destruct (Z.lt_trichotomy e 971) as [Lt|[Eq|Gt]].
    + assert (2 ^ e <= 2 ^ 970) by (apply Z.pow_le_mono_r; lia).
      assert (A : 2 ^ 53 * 2 ^ 970 < 2 ^ 1024 - 2 ^ 970)
        by (vm_compute; reflexivity).
      assert ((q + 1) * 2 ^ e <= 2 ^ 53 * 2 ^ 970) by nia.
      destruct ((2 ^ (e - 1) <? r) || ((r =? 2 ^ (e - 1)) && Z.odd q));
        split; intros _; nia.
    + assert (H970 : 2 ^ (e - 1) = 2 ^ 970) by (f_equal; lia).
      assert (H971 : 2 ^ e = 2 * 2 ^ 970).
      { rewrite Eq. change 971 with (Z.succ 970). apply Z.pow_succ_r. lia. }
      assert (H1024 : 2 ^ 1024 = 2 ^ 53 * (2 * 2 ^ 970))
        by (vm_compute; reflexivity).
      rewrite H970, H971 in *. rewrite H1024.
      assert (P970 : 0 < 2 ^ 970) by (apply Z.pow_pos_nonneg; lia).
      set (h := 2 ^ 970) in *. clearbody h.
      destruct (Z.eq_dec q (2 ^ 53 - 1)) as [Qe|Qn].
      * assert (O : Z.odd q = true) by (rewrite Qe; reflexivity).
        rewrite O, andb_true_r.
        destruct (Z.ltb_spec h r); destruct (Z.eqb_spec r h); cbn [orb];
          split; intros; nia.
      * destruct ((h <? r) || ((r =? h) && Z.odd q)); split; intros _; nia.
    + assert (2 ^ 972 <= 2 ^ e) by (apply Z.pow_le_mono_r; lia).
      assert (A : 2 ^ 1024 = 2 ^ 52 * 2 ^ 972) by (vm_compute; reflexivity).
      assert (A' : 0 < 2 ^ 970) by (apply Z.pow_pos_nonneg; lia).
      assert (A2 : 0 < 2 ^ 972) by (apply Z.pow_pos_nonneg; lia).
      assert (2 ^ 1024 <= q * 2 ^ e) by nia.
      destruct ((2 ^ (e - 1) <? r) || ((r =? 2 ^ (e - 1)) && Z.odd q));
        split; intros; nia.
Qed.

Lemma iter_int_075_bound (k : nat) :
  forall r, 0 <= r ->
  0 <= Nat.iter k int_075 r <= Z.max 0 (r - Z.of_nat k).
Proof.
  induction k as [|k IH]; intros r H.
  - simpl. lia.
  - rewrite Nat.iter_succ_r.
    destruct (Z.eq_dec r 0) as [->|N].
    + change (int_075 0) with 0. specialize (IH 0 ltac:(lia)). lia.
    + pose proof (int_075_bounds r H) as [B1 B2].
      pose proof (int_075_lt r ltac:(lia)) as B3.
      specialize (IH (int_075 r) B1). lia.
Qed.

(** ** What a page does to the frame *)

(** Inversion of a page that was processed to its end. *)
Lemma loop_body_ok_page (m : message) (s s' : locals) (ev : list event) :
  loop_body (ok_page m) s = (inr tt, s', ev) ->
  exists (l : list item) (t : Z) (b0 : tqdm_bar),
    items m = Some l
    /\ total s' = Some t
    /\ match progress_bar s with
       | Some b => b0 = b /\ total s = Some t
       | None => b0 = {| bar_total := t; n := 0 |}
                 /\ exists T, total_results m = Some T
                              /\ t = clamp (max_items s) T
       end
    /\ let taken := slice_to l (t - n b0) in
       let k := Z.of_nat (List.length taken) in
       ev = match progress_bar s with
            | Some _ => []
            | None => [BarCreate (component s) t]
            end ++ map Yield taken ++ [BarUpdate k]
       /\ progress_bar s' = Some (update k b0)
       /\ incomplete s' = negb (Nat.eqb (List.length taken) 0)
       /\ successive_errors s' = 0
       /\ rows s' = batch_size s
       /\ component s' = component s
       /\ batch_size s' = batch_size s
       /\ max_items s' = max_items s
       /\ if truthy (cursor s)
          then next_cursor m = Some (cursor s') /\ offset s' = offset s
          else cursor s' = cursor s
               /\ exists o, offset s = Some o
                            /\ offset s' = Some (o + k)
                            /\ (start_index m = None \/ start_index m = Some o).
Proof.
  intros H. destruct s as [c b cur mx pb inc se rw off tot].
  destruct m as [tr its nc si].
  gen_unfold. cbn -[slice_to Z.add Z.sub Z.of_nat Z.min] in H |- *.
  destruct pb as [b0|], tot as [t|], tr as [T|], its as [l|];
    cbn -[slice_to Z.add Z.sub Z.of_nat Z.min] in H; try discriminate.
  all: destruct (truthy cur) eqn:TC;
    cbn -[slice_to Z.add Z.sub Z.of_nat Z.min] in H.
  all: try (destruct nc as [c'|];
    cbn -[slice_to Z.add Z.sub Z.of_nat Z.min] in H; try discriminate).
  all: try (destruct si as [i|], off as [o|];
    cbn -[slice_to Z.add Z.sub Z.of_nat Z.min] in H; try discriminate).
  all: try (destruct (o =? i) eqn:E;
    cbn -[slice_to Z.add Z.sub Z.of_nat Z.min] in H; try discriminate).
  all: try (apply Z.eqb_eq in E; subst i).
  all: injection H as <- <-.
  all: eexists _, _, _; cbn -[slice_to Z.add Z.sub Z.of_nat Z.min].
  all: rewrite ?app_nil_r.
  all: repeat (split; [try reflexivity; eauto|]); eauto.
Qed.

(** The three ways a pass through the loop body ends without an exception. *)
Lemma loop_body_cases (response : api_result) (s s' : locals)
    (ev : list event) :
  loop_body response s = (inr tt, s', ev) ->
  is_failure response = true
  \/ (exists result, response = ApiResponse 200 (Some result)
                     /\ status_ok result = false)
  \/ (exists m, response = ok_page m).
Proof.
  intros H. destruct response as [|code body]; [left; reflexivity|].
  destruct (code =? 200) eqn:C; [|left; simpl; rewrite C; reflexivity].
  apply Z.eqb_eq in C. subst code. right.
  destruct body as [result|].
  - destruct (status_ok result) eqn:O; [|left; eauto].
    right. destruct result as [st mo].
    unfold status_ok in O. cbn in O. destruct st as [st|]; [|discriminate].
    apply String.eqb_eq in O. subst st.
    destruct mo as [m|]; [exists m; reflexivity|].
    exfalso. destruct s as [c b cur mx pb inc se rw off tot].
    gen_unfold. cbn in H.
    destruct pb, tot; cbn in H; discriminate.
  - exfalso. gen_unfold. cbn in H. discriminate.
Qed.

(** Appending to a script whose run was waiting for a response. *)
Lemma loop_app (pre rest : list api_result) :
  forall (s s1 : locals) (rw : Z) (p : params) (ev1 : list event),
  loop pre s = (Awaiting rw p, s1, ev1) ->
  loop (pre ++ rest) s
  = match loop rest s1 with
    | (e, s2, ev2) => (e, s2, ev1 ++ ev2)
    end.
Proof.
  induction pre as [|r pre IH]; intros s s1 rw p ev1 H.
  - simpl in H. destruct (incomplete s) eqn:I; [|discriminate].
    rewrite build_params_eq in H.
    destruct (params_of s) as [e|q] eqn:P; [discriminate|].
    injection H as _ _ <- <-. simpl app.
    destruct (loop rest s) as [[e s2] ev2]. reflexivity.
  - simpl in H. simpl app. simpl loop.
    destruct (incomplete s) eqn:I; [|discriminate]. simpl in *.
    rewrite build_params_eq in *.
    destruct (params_of s) as [e|q] eqn:P; [discriminate|].
    destruct (loop_body r s) as [[[e|[]] s0] ev0]; [discriminate|].
    destruct (loop pre s0) as [[e0 s3] ev3] eqn:L.
    injection H as -> -> <-.
    rewrite (IH s0 s1 rw p ev3 L).
    destruct (loop rest s1) as [[e s2] ev2].
    simpl. rewrite <- app_assoc. reflexivity.
Qed.

(** ** The progress invariant *)

Lemma yielded_app (a b : list event) : yielded (a ++ b) = yielded a ++ yielded b.
Proof.
  induction a as [|e a IH]; [reflexivity|].
  destruct e; simpl; rewrite IH; reflexivity.
Qed.

Lemma yielded_map_Yield (l : list item) : yielded (map Yield l) = l.
Proof. induction l as [|x l IH]; simpl; [|rewrite IH]; reflexivity. Qed.

Lemma requests_app (a b : list event) :
  requests (a ++ b) = requests a ++ requests b.
Proof.
  induction a as [|e a IH]; [reflexivity|].
  destruct e; simpl; rewrite IH; reflexivity.
Qed.

Lemma requests_map_Yield (l : list item) : requests (map Yield l) = [].
Proof. induction l as [|x l IH]; simpl; [|rewrite IH]; reflexivity. Qed.

Lemma slice_to_nonneg {A : Type} (l : list A) (r : Z) :
  0 <= r -> slice_to l r = firstn (Z.to_nat r) l.
Proof.
  intros H. unfold slice_to.
  destruct (0 <=? r) eqn:E; [reflexivity|]. apply Z.leb_gt in E. lia.
Qed.

Lemma slice_to_length {A : Type} (l : list A) (r : Z) :
  0 <= r -> Z.of_nat (List.length (slice_to l r)) <= r.
Proof.
  intros H. rewrite slice_to_nonneg by exact H.
  pose proof (firstn_le_length (Z.to_nat r) l) as L1.
  rewrite length_firstn. lia.
Qed.

Lemma slice_to_nil {A : Type} (l : list A) (r : Z) :
  0 <= r -> (slice_to l r = [] <-> r = 0 \/ l = []).
Proof.
  intros H. rewrite slice_to_nonneg by exact H. split.
  - intros E. destruct l as [|x l]; [right; reflexivity|].
    destruct (Z.to_nat r) eqn:R; [left; lia|]. simpl in E. discriminate.
  - intros [->| ->]; [reflexivity|]. apply firstn_nil.
Qed.

(** The events of a processed page, seen by the consumer. *)
Lemma yielded_page_events (pre : list event) (taken : list item) (k : Z) :
  yielded pre = [] ->
  yielded (pre ++ map Yield taken ++ [BarUpdate k]) = taken.
Proof.
  intros P. rewrite !yielded_app, P, yielded_map_Yield. simpl.
  apply app_nil_r.
Qed.

Lemma loop_body_progress (response : api_result) (s s' : locals)
    (ev : list event) :
  progress_inv s ->
  cap_nonneg (max_items s) ->
  (progress_bar s = None -> reports_nonneg response) ->
  loop_body response s = (inr tt, s', ev) ->
  progress_inv s'
  /\ max_items s' = max_items s
  /\ (progress_bar s <> None -> progress_bar s' <> None)
  /\ emitted s' = emitted s + Z.of_nat (List.length (yielded ev)).
Proof.
  intros I C R H.
  destruct (loop_body_cases response s s' ev H) as [F|[(result & -> & O)|(m & ->)]].
  - rewrite (loop_body_failure response s F) in H. injection H as <- <-.
    unfold progress_inv, emitted, after_failures in *.
    destruct s; cbn in *. repeat split; auto; lia.
  - rewrite (loop_body_not_ok result s O) in H. injection H as <- <-.
    unfold progress_inv, emitted in *.
    destruct s; cbn in *. repeat split; auto; lia.
  - destruct (loop_body_ok_page m s s' ev H)
      as (l & t & b0 & Hl & Ht & Hb & Hev & Hp & _ & _ & _ & _ & _ & Hm & _).
    unfold progress_inv, emitted in *. rewrite Hp, Ht.
    assert (B : 0 <= n b0 <= t /\ emitted s = n b0).
    { unfold emitted. destruct (progress_bar s) as [b|].
      - destruct Hb as [-> Hts]. rewrite Hts in I. auto.
      - destruct Hb as [-> (T & HT & ->)]. cbn.
        specialize (R eq_refl). cbn in R. rewrite HT in R.
        destruct (max_items s) as [cap|]; cbn in *; lia. }
    destruct B as [B E]. unfold emitted in E. rewrite E.
    pose proof (slice_to_length l (t - n b0) ltac:(lia)) as L.
    assert (Y : yielded ev = slice_to l (t - n b0)).
    { rewrite Hev. apply yielded_page_events.
      destruct (progress_bar s); reflexivity. }
    rewrite Y. cbn. repeat split; try assumption; try lia.
    intros _. discriminate.
Qed.

(** The invariant along a whole run, with the count kept in the bar equal to
    the number of items the consumer received. *)
Lemma loop_progress (script : list api_result) :
  forall (s s2 : locals) (e : ending) (ev : list event),
  progress_inv s ->
  cap_nonneg (max_items s) ->
  (progress_bar s = None -> Forall reports_nonneg script) ->
  loop script s = (e, s2, ev) ->
  not_raised e ->
  progress_inv s2
  /\ max_items s2 = max_items s
  /\ emitted s2 = emitted s + Z.of_nat (List.length (yielded ev)).
Proof.
  induction script as [|r script IH]; intros s s2 e ev I C R H N.
  - simpl in H. destruct (incomplete s).
    + rewrite build_params_eq in H.
      destruct (params_of s); injection H as <- <- <-; [contradiction|].
      simpl. repeat split; try assumption. lia.
    + injection H as <- <- <-. simpl. repeat split; try assumption. lia.
  - assert (Rr : progress_bar s = None -> reports_nonneg r).
    { intros PB. specialize (R PB). inversion R; assumption. }
    assert (Rs : progress_bar s = None -> Forall reports_nonneg script).
    { intros PB. specialize (R PB). inversion R; assumption. }
    simpl in H. destruct (incomplete s).
    + rewrite build_params_eq in H.
      destruct (params_of s) as [x|p];
        [injection H as <- <- <-; contradiction|].
      simpl in H.
      destruct (loop_body r s) as [[[x|[]] s1] ev1] eqn:B;
        [injection H as <- <- <-; contradiction|].
      destruct (loop script s1) as [[e' s3] ev3] eqn:L.
      injection H as <- <- <-.
      destruct (loop_body_progress r s s1 ev1 I C Rr B)
        as (I1 & M1 & K1 & E1).
      rewrite <- M1 in C.
      assert (Rs1 : progress_bar s1 = None -> Forall reports_nonneg script).
      { intros PB1. apply Rs.
        destruct (progress_bar s); [|reflexivity].
        exfalso. apply K1; [discriminate|exact PB1]. }
      destruct (IH s1 s3 e' ev3 I1 C Rs1 L N) as (I3 & M3 & E3).
      repeat split; [assumption|congruence|].
      simpl. rewrite yielded_app, length_app. lia.
    + injection H as <- <- <-. simpl. repeat split; try assumption. lia.
Qed.

(** ** Failures, back-off and the page size *)

Lemma params_of_initial (c : string) (b : Z) (cur : cursor_value)
    (mx : option Z) :
  params_of (initial c b cur mx)
  = inr (if truthy cur
         then {| p_cursor := Some cur; p_offset := None |}
         else {| p_cursor := None; p_offset := Some 0 |}).
Proof. unfold params_of, initial. simpl. destruct (truthy cur); reflexivity. Qed.

(** C1, as stated, fails: after one HTTP 500 the request that gets the
    not-ok payload asks for 15 rows with one error counted; the not-ok
    payload resets both, and the retry asks for 20 rows. *)
Lemma not_ok_frame_counterexample :
  let r1 := query_all "works" 20 PyNone None [ApiResponse 500 None] in
  let r2 := query_all "works" 20 PyNone None
              [ApiResponse 500 None; ApiResponse 200 (Some not_ok_payload)] in
  status_ok not_ok_payload = false
  /\ ending_of r1 = Awaiting 15 (mkParams None (Some 0))
  /\ successive_errors (frame_of r1) = 1
  /\ requests (trace_of r2)
     = [(20, mkParams None (Some 0)); (15, mkParams None (Some 0))]
  /\ ending_of r2 = Awaiting 20 (mkParams None (Some 0))
  /\ successive_errors (frame_of r2) <> successive_errors (frame_of r1)
  /\ rows (frame_of r2) <> rows (frame_of r1).
Proof. vm_compute. repeat split; try reflexivity; discriminate. Qed.

(** C1, amended: an HTTP 200 whose payload status is not ["ok"] yields
    nothing, does not sleep, neither increments [successive_errors] nor
    shrinks [rows], and leaves cursor, offset and progress as they were; like
    every HTTP 200 it resets [successive_errors] to 0 and [rows] to
    [batch_size].  The loop retries with the same cursor or offset and
    [rows = batch_size]: the retried request is the request that got the
    payload exactly when that one asked for [batch_size] rows, and the frame
    is unchanged exactly when [successive_errors] was 0 and [rows] was
    [batch_size]. *)
Theorem not_ok_retry (result : payload) (s : locals) (p : params) :
  status_ok result = false ->
  incomplete s = true ->
  params_of s = inr p ->
  exists s',
    loop_body (ApiResponse 200 (Some result)) s = (inr tt, s', [])
    /\ loop [ApiResponse 200 (Some result)] s
       = (Awaiting (batch_size s) p, s', [Request (component s) (rows s) p])
    /\ successive_errors s' = 0
    /\ rows s' = batch_size s
    /\ cursor s' = cursor s
    /\ offset s' = offset s
    /\ progress_bar s' = progress_bar s
    /\ total s' = total s
    /\ params_of s' = inr p
    /\ (Request (component s') (rows s') p = Request (component s) (rows s) p
        <-> rows s = batch_size s)
    /\ (s' = s <-> successive_errors s = 0 /\ rows s = batch_size s).
Proof.
  intros O I P.
  exists (set_rows (batch_size s) (set_successive_errors 0 s)).
  pose proof (loop_body_not_ok result s O) as B.
  split; [exact B|]. split.
  - rewrite (loop_step _ [] s p I P), B.
    rewrite (loop_nil (set_rows (batch_size s) (set_successive_errors 0 s)) p
               I P).
    reflexivity.
  - do 6 (split; [reflexivity|]). split; [exact P|]. split; [split|split].
    + intros E. injection E as E. symmetry. exact E.
    + intros E. cbn. rewrite E. reflexivity.
    + intros E. rewrite <- E. split; reflexivity.
    + intros [E R]. destruct s; cbn in *. subst. reflexivity.
Qed.

Lemma not_ok_retry_witness :
  exists s',
    loop_body (ApiResponse 200 (Some not_ok_payload))
      (initial "works" 20 (PyStr "*") None) = (inr tt, s', [])
    /\ rows s' = 20.
Proof.
  destruct (not_ok_retry not_ok_payload (initial "works" 20 (PyStr "*") None)
              (mkParams (Some (PyStr "*")) None)
              eq_refl eq_refl eq_refl) as (s' & B & _ & _ & R & _).
  exists s'. split; [exact B|exact R].
Defined.

(** ** Facts that hold for every pass, raising or not *)

Lemma loop_body_frame (response : api_result) (s s' : locals)
    (res : exn + unit) (ev : list event) :
  loop_body response s = (res, s', ev) ->
  component s' = component s
  /\ batch_size s' = batch_size s
  /\ max_items s' = max_items s
  /\ requests ev = []
  /\ (truthy (cursor s) = false -> cursor s' = cursor s)
  /\ (truthy (cursor s) = true -> offset s' = offset s)
  /\ (offset s <> None -> offset s' <> None).
Proof.
  intros H. loop_body_all_cases H.
  all: simp_goal.
  all: rewrite ?requests_app, ?requests_map_Yield.
  all: repeat split; try reflexivity; try congruence.
Qed.

(** Every HTTP 200 rolls the state of emergency back, whatever follows. *)
Lemma loop_body_200 (body : option payload) (s s' : locals)
    (res : exn + unit) (ev : list event) :
  loop_body (ApiResponse 200 body) s = (res, s', ev) ->
  successive_errors s' = 0 /\ rows s' = batch_size s.
Proof.
  intros H. destruct body as [[st [[tr its nc si]|]]|].
  all: loop_body_all_cases H; simp_goal; split; reflexivity.
Qed.

(** [total] and the bar are assigned by the first ["ok"] page only. *)
Lemma loop_body_total_kept (response : api_result) (s s' : locals)
    (res : exn + unit) (ev : list event) :
  loop_body response s = (res, s', ev) ->
  progress_bar s <> None ->
  total s' = total s /\ progress_bar s' <> None.
Proof.
  intros H. destruct response as [|code [[st [[tr its nc si]|]]|]].
  all: loop_body_all_cases H; simp_goal; intros N; split;
    try reflexivity; try assumption; try discriminate; try congruence.
Qed.


(** A page under the progress invariant: what is taken is a prefix of the
    page's items, no longer than what remains. *)
Lemma ok_page_progress (m : message) (s s' : locals) (ev : list event) :
  progress_inv s ->
  cap_nonneg (max_items s) ->
  (progress_bar s = None -> reports_nonneg (ok_page m)) ->
  loop_body (ok_page m) s = (inr tt, s', ev) ->
  exists (l : list item) (t : Z),
    items m = Some l
    /\ total s' = Some t
    /\ 0 <= emitted s <= t
    /\ yielded ev = firstn (Z.to_nat (t - emitted s)) l
    /\ emitted s' = emitted s + Z.of_nat (List.length (yielded ev))
    /\ incomplete s' = negb (Nat.eqb (List.length (yielded ev)) 0).
Proof.
  intros I C R H.
  destruct (loop_body_ok_page m s s' ev H)
    as (l & t & b0 & Hl & Ht & Hb & Hev & Hp & Hi & _).
  exists l, t.
  assert (B : 0 <= n b0 <= t /\ emitted s = n b0).
  { unfold emitted, progress_inv in *. destruct (progress_bar s) as [b|].
    - destruct Hb as [-> Hts]. rewrite Hts in I. auto.
    - destruct Hb as [-> (T & HT & ->)]. cbn.
      specialize (R eq_refl). cbn in R. rewrite HT in R.
      destruct (max_items s) as [cap|]; cbn in *; lia. }
  destruct B as [B E].
  assert (Y : yielded ev = slice_to l (t - n b0)).
  { rewrite Hev. apply yielded_page_events.
    destruct (progress_bar s); reflexivity. }
  rewrite Y, E. repeat split; try assumption; try lia.
  - apply slice_to_nonneg. lia.
  - unfold emitted. rewrite Hp. cbn. reflexivity.
Qed.

Lemma loop_body_retried (response : api_result) (s : locals) :
  retried response = true ->
  exists s' ev,
    loop_body response s = (inr tt, s', ev)
    /\ yielded ev = []
    /\ progress_bar s' = progress_bar s
    /\ total s' = total s
    /\ cursor s' = cursor s
    /\ offset s' = offset s
    /\ incomplete s' = incomplete s
    /\ max_items s' = max_items s.
Proof.
  intros R.
  assert (C : is_failure response = true
              \/ exists result, response = ApiResponse 200 (Some result)
                                /\ status_ok result = false).
  { destruct response as [|code body]; [left; reflexivity|].
    cbn in *. destruct (code =? 200) eqn:E; [|left; reflexivity].
    apply Z.eqb_eq in E. subst code. right.
    destruct body as [result|]; [|discriminate].
    exists result. split; [reflexivity|].
    destruct (status_ok result); [discriminate|reflexivity]. }
  destruct C as [F|(result & -> & O)].
  - rewrite (loop_body_failure response s F).
    eexists _, _. split; [reflexivity|]. destruct s; repeat split.
  - rewrite (loop_body_not_ok result s O).
    eexists _, _. split; [reflexivity|]. destruct s; repeat split.
Qed.

Lemma params_of_ext (s s' : locals) :
  cursor s' = cursor s -> offset s' = offset s -> params_of s' = params_of s.
Proof. intros C O. unfold params_of. rewrite C, O. reflexivity. Qed.

(** A prefix of retried responses leaves position and progress alone. *)
Lemma loop_retried (pre : list api_result) :
  forall (s : locals) (p : params),
  Forall (fun r => retried r = true) pre ->
  incomplete s = true ->
  params_of s = inr p ->
  exists s1 ev1,
    loop pre s = (Awaiting (rows s1) p, s1, ev1)
    /\ yielded ev1 = []
    /\ progress_bar s1 = progress_bar s
    /\ total s1 = total s
    /\ cursor s1 = cursor s
    /\ offset s1 = offset s
    /\ incomplete s1 = true
    /\ max_items s1 = max_items s.
Proof.
  induction pre as [|r pre IH]; intros s p F I P.
  - exists s, []. rewrite (loop_nil s p I P). repeat split. exact I.
  - inversion F as [|? ? Fr Fpre]; subst.
    destruct (loop_body_retried r s Fr)
      as (s0 & ev0 & B & Y0 & PB0 & T0 & C0 & O0 & I0 & M0).
    rewrite (loop_step r pre s p I P), B.
    assert (I0' : incomplete s0 = true) by congruence.
    assert (P0 : params_of s0 = inr p)
      by (rewrite (params_of_ext s s0 C0 O0); exact P).
    destruct (IH s0 p Fpre I0' P0)
      as (s1 & ev1 & L & Y1 & PB1 & T1 & C1 & O1 & I1 & M1).
    rewrite L. eexists _, _. split; [reflexivity|].
    repeat split; try congruence.
    simpl. rewrite yielded_app, Y0, Y1. reflexivity.
Qed.

(** Once assigned, [total] is never assigned again. *)
Lemma loop_total_kept (script : list api_result) :
  forall s : locals,
  progress_bar s <> None ->
  total (frame_of (loop script s)) = total s.
Proof.
  induction script as [|r script IH]; intros s N; unfold frame_of in *.
  - simpl. destruct (incomplete s); [|reflexivity].
    rewrite build_params_eq. destruct (params_of s); reflexivity.
  - simpl. destruct (incomplete s); [|reflexivity].
    rewrite build_params_eq. destruct (params_of s) as [e|p]; [reflexivity|].
    simpl.
    destruct (loop_body r s) as [[res s1] ev1] eqn:B.
    destruct (loop_body_total_kept r s s1 res ev1 B N) as [T1 N1].
    destruct res as [e|[]]; [exact T1|].
    specialize (IH s1 N1).
    destruct (loop script s1) as [[e' s2] ev2]. simpl in *. congruence.
Qed.



Lemma loop_nil_cases (s : locals) :
  exists e, loop [] s = (e, s, [])
            /\ (e = Exhausted <-> incomplete s = false)
            /\ (incomplete s = true ->
                match params_of s with
                | inl x => e = Raised x
                | inr p => e = Awaiting (rows s) p
                end).
Proof.
  simpl. destruct (incomplete s) eqn:I.
  - rewrite build_params_eq. destruct (params_of s) as [x|p].
    + exists (Raised x). repeat split; try discriminate; congruence.
    + exists (Awaiting (rows s) p).
      repeat split; try discriminate; congruence.
  - exists Exhausted. repeat split; discriminate.
Qed.

Lemma loop_awaiting (script : list api_result) :
  forall (s s1 : locals) (rw : Z) (p : params) (ev : list event),
  loop script s = (Awaiting rw p, s1, ev) ->
  incomplete s1 = true /\ params_of s1 = inr p /\ rw = rows s1.
Proof.
  induction script as [|r script IH]; intros s s1 rw p ev H.
  - simpl in H. destruct (incomplete s) eqn:I; [|discriminate].
    rewrite build_params_eq in H.
    destruct (params_of s) as [x|q] eqn:P; [discriminate|].
    injection H as <- <- <- <-. auto.
  - simpl in H. destruct (incomplete s) eqn:I; [|discriminate].
    rewrite build_params_eq in H.
    destruct (params_of s) as [x|q] eqn:P; [discriminate|]. simpl in H.
    destruct (loop_body r s) as [[[x|[]] s0] ev0]; [discriminate|].
    destruct (loop script s0) as [[e' s3] ev3] eqn:L.
    injection H as -> -> <-. exact (IH s0 s1 rw p ev3 L).
Qed.

(** The run over one more response, from a frame that was waiting. *)
Lemma loop_one (response : api_result) (s : locals) (p : params) :
  incomplete s = true ->
  params_of s = inr p ->
  match loop_body response s with
  | (inl x, s1, ev1) =>
      loop [response] s
      = (Raised x, s1, Request (component s) (rows s) p :: ev1)
  | (inr _, s1, ev1) =>
      exists e,
        loop [response] s
        = (e, s1, Request (component s) (rows s) p :: ev1)
        /\ loop [] s1 = (e, s1, [])
  end.
Proof.
  intros I P. rewrite (loop_step response [] s p I P).
  destruct (loop_body response s) as [[[x|[]] s1] ev1]; [reflexivity|].
  destruct (loop_nil_cases s1) as (e & L & _). exists e.
  rewrite L, app_nil_r. split; reflexivity.
Qed.

Lemma progress_inv_initial (c : string) (b : Z) (cur : cursor_value)
    (mx : option Z) : progress_inv (initial c b cur mx).
Proof. exact I. Qed.

(** ** Recovery *)



(** ** Emission against [total] *)

(** The pass over an ok page raises nothing exactly when the page has what
    the pass reads. *)
Lemma loop_body_page_processed (m : message) (s s' : locals)
    (res : exn + unit) (ev : list event) :
  loop_body (ok_page m) s = (res, s', ev) ->
  (progress_bar s <> None -> total s <> None) ->
  (truthy (cursor s) = false -> offset s <> None) ->
  (res = inr tt <-> page_processed s m).
Proof.
  intros H. destruct m as [tr its nc si].
  unfold page_processed, position_ok.
  loop_body_all_cases H; intros W O; simp_goal.
  all: try (exfalso; apply W; [discriminate|reflexivity]).
  all: try (exfalso; apply O; reflexivity).
  all: split; [try discriminate; intros _|intros (A1 & A2 & A3)].
  all: try (repeat split; try discriminate; try reflexivity).
  all: try (exfalso; apply A1; reflexivity).
  all: try (exfalso; apply A2; reflexivity).
  all: try (exfalso; apply A3; reflexivity).
  all: try match goal with
           | E : (_ =? _) = true |- _ => apply Z.eqb_eq in E; subst; reflexivity
           end.
  all: try match goal with
           | E : (_ =? _) = false |- _ =>
               apply Z.eqb_neq in E; exfalso; apply E; congruence
           end.
Qed.

Lemma slice_to_empty {A : Type} (r : Z) : slice_to (@nil A) r = [].
Proof. unfold slice_to. destruct (0 <=? r); apply firstn_nil. Qed.

(** What an ok page yields, whether or not the pass then raises: the slice of
    its items by [total - emitted]; nothing when [total] cannot be set. *)
Lemma loop_body_page_total (m : message) (s s' : locals)
    (res : exn + unit) (ev : list event) :
  loop_body (ok_page m) s = (res, s', ev) ->
  progress_inv s ->
  (forall t, total s' = Some t ->
     match progress_bar s with
     | Some _ => total s = Some t
     | None => exists T, total_results m = Some T
                         /\ t = clamp (max_items s) T
     end
     /\ yielded ev = slice_to (items_of m) (t - emitted s))
  /\ (total s' = None ->
      progress_bar s = None /\ total_results m = None /\ yielded ev = []).
Proof.
  intros H. destruct m as [tr its nc si].
  unfold items_of, emitted, clamp, progress_inv.
  loop_body_all_cases H; intros W; simp_goal; try contradiction.
  all: rewrite ?yielded_app, ?yielded_map_Yield; cbn [yielded app].
  all: rewrite ?yielded_app, ?yielded_map_Yield, ?app_nil_r;
       cbn [yielded app]; rewrite ?app_nil_r.
  all: split; [intros t' E|intros E]; try discriminate.
  all: try (injection E as <-).
  all: rewrite ?slice_to_empty.
  all: repeat split; try reflexivity; eauto.
Qed.

(** C3, as stated, fails on three counts.  With [max_items = -1], or with
    [total-results = -1], [total] is -1 and the run yields 19 of the 20
    items of the page: the count passes [total], and more than
    [total - emitted] items are taken.  And a page from which no item is
    taken does not end the run cleanly when its position update raises: an
    empty page without [next-cursor] in cursor mode ends it with [KeyError],
    one with another [start-index] in offset mode with [AssertionError]. *)
Lemma emitted_exceeds_counterexample :
  let r1 := query_all "works" 20 PyNone (Some (-1))
              [page 100 twenty None (Some 0)] in
  let r2 := query_all "works" 20 PyNone None
              [page (-1) twenty None (Some 0)] in
  let r3 := query_all "works" 20 (PyStr "*") None [page 100 [] None None] in
  let r4 := query_all "works" 20 PyNone None [page 100 [] None (Some 7)] in
  (total (frame_of r1) = Some (-1)
   /\ List.length (yielded (trace_of r1)) = 19%nat)
  /\ (total (frame_of r2) = Some (-1)
      /\ List.length (yielded (trace_of r2)) = 19%nat)
  /\ (yielded (trace_of r3) = []
      /\ ending_of r3 = Raised (KeyError "next-cursor"))
  /\ (yielded (trace_of r4) = []
      /\ ending_of r4 = Raised AssertionError).
Proof. vm_compute. repeat split; reflexivity. Qed.

(** C3, amended: in a run with non-negative [max_items] and [total-results],
    an ok page adds to what was yielded the first [total - emitted] of its
    items (all of them if there are fewer), so the count never passes
    [total] and grows strictly whenever an item is taken; no item is taken
    exactly when [emitted = total] already or the page has no items; and the
    run ends cleanly exactly when no item is taken and the pass over the
    page raises nothing, that is when the page has the keys the pass reads
    and, in offset mode, no [start-index] other than the offset; otherwise
    the run ends with the exception.  A run that ended cleanly ignores all
    later responses. *)
Theorem emitted_bounded (c : string) (b : Z) (cur : cursor_value)
    (mx : option Z) (pre : list api_result) (m : message)
    (rw : Z) (p : params) :
  cap_nonneg mx ->
  Forall reports_nonneg (pre ++ [ok_page m]) ->
  let r0 := query_all c b cur mx pre in
  let r1 := query_all c b cur mx (pre ++ [ok_page m]) in
  ending_of r0 = Awaiting rw p ->
  exists taken : list item,
    yielded (trace_of r1) = yielded (trace_of r0) ++ taken
    /\ let before := Z.of_nat (List.length (yielded (trace_of r0))) in
       let after := Z.of_nat (List.length (yielded (trace_of r1))) in
       emitted (frame_of r0) = before
       /\ (taken <> [] -> before < after)
       /\ match total (frame_of r1) with
          | Some t =>
              taken = firstn (Z.to_nat (t - before)) (items_of m)
              /\ Z.of_nat (List.length taken) <= t - before
              /\ before <= after <= t
              /\ (taken = [] <-> before = t \/ items_of m = [])
          | None => taken = [] /\ total_results m = None
          end
       /\ (ending_of r1 = Exhausted
           <-> taken = [] /\ page_processed (frame_of r0) m)
       /\ (page_processed (frame_of r0) m -> emitted (frame_of r1) = after)
       /\ (~ page_processed (frame_of r0) m ->
           exists x, ending_of r1 = Raised x)
       /\ (ending_of r1 = Exhausted ->
           forall rest, query_all c b cur mx (pre ++ ok_page m :: rest) = r1).
Proof.
  intros C R. cbv zeta. unfold query_all.
  set (s0 := initial c b cur mx).
  destruct (loop pre s0) as [[e0 s1] ev0] eqn:L0.
  unfold ending_of, frame_of, trace_of. cbn [fst snd].
  intros ->.
  apply Forall_app in R. destruct R as [Rpre Rm].
  inversion Rm as [|? ? Rm' _]; subst.
  destruct (loop_awaiting pre s0 s1 rw p ev0 L0) as (I1 & P1 & _).
  destruct (loop_progress pre s0 s1 _ ev0 (progress_inv_initial c b cur mx)
              C (fun _ => Rpre) L0 I) as (Inv1 & M1 & E1).
  change (emitted s0) with 0 in E1. rewrite Z.add_0_l in E1.
  assert (C1 : cap_nonneg (max_items s1)) by (rewrite M1; exact C).
  assert (W1 : progress_bar s1 <> None -> total s1 <> None).
  { unfold progress_inv in Inv1. intros PB T. rewrite T in Inv1.
    destruct (progress_bar s1); [contradiction|apply PB; reflexivity]. }
  assert (O1 : truthy (cursor s1) = false -> offset s1 <> None).
  { intros Cu O. unfold params_of in P1. rewrite Cu, O in P1. discriminate. }
  rewrite (loop_app pre [ok_page m] s0 s1 rw p ev0 L0).
  pose proof (loop_one (ok_page m) s1 p I1 P1) as O.
  destruct (loop_body (ok_page m) s1) as [[res s2] ev1] eqn:B.
  pose proof (loop_body_page_processed m s1 s2 res ev1 B W1 O1) as PP.
  destruct (loop_body_page_total m s1 s2 res ev1 B Inv1) as [TS TN].
  exists (yielded ev1).
  assert (Fr : exists e, loop [ok_page m] s1
                         = (e, s2, Request (component s1) (rows s1) p :: ev1)
                         /\ match res with
                            | inl x => e = Raised x
                            | inr _ => loop [] s2 = (e, s2, [])
                            end).
  { destruct res as [x|[]]; [exists (Raised x); auto|].
    destruct O as (e & O & Onil). exists e. auto. }
  clear O. destruct Fr as (e & O & Oe). rewrite O. cbn [fst snd].
  rewrite yielded_app. cbn [yielded]. rewrite length_app, Nat2Z.inj_add.
  rewrite <- E1.
  assert (Tot : match total s2 with
                | Some t =>
                    yielded ev1 = firstn (Z.to_nat (t - emitted s1)) (items_of m)
                    /\ 0 <= emitted s1 <= t
                | None => yielded ev1 = [] /\ total_results m = None
                end).
  { destruct (total s2) as [t|] eqn:T2.
    - destruct (TS t eq_refl) as [Ht Hy].
      assert (Bd : 0 <= emitted s1 <= t).
      { unfold emitted, progress_inv in *.
        destruct (progress_bar s1) as [b1|].
        - rewrite Ht in Inv1. exact Inv1.
        - destruct Ht as (T & HT & ->). cbn in Rm'. rewrite HT in Rm'.
          destruct (max_items s1) as [cap|]; cbn in *; lia. }
      split; [|exact Bd]. rewrite Hy. apply slice_to_nonneg. lia.
    - destruct (TN eq_refl) as (_ & HT & Hy). auto. }
  split; [reflexivity|]. split; [reflexivity|].
  split.
  { intros Y. destruct (yielded ev1); [congruence|]. simpl. lia. }
  split.
  { destruct (total s2) as [t|]; [|exact Tot].
    destruct Tot as [Hy Bd].
    assert (Len : Z.of_nat (List.length (yielded ev1)) <= t - emitted s1).
    { rewrite Hy, length_firstn. lia. }
    repeat split; try assumption; try lia.
    - intros Y. rewrite Hy in Y.
      rewrite <- (slice_to_nonneg (items_of m) (t - emitted s1)) in Y by lia.
      apply (slice_to_nil (items_of m) (t - emitted s1)) in Y; [|lia].
      destruct Y; [left; lia|right; assumption].
    - intros Y. rewrite Hy.
      rewrite <- (slice_to_nonneg (items_of m) (t - emitted s1)) by lia.
      apply (slice_to_nil (items_of m) (t - emitted s1)); [lia|].
      destruct Y; [left; lia|right; assumption]. }
  destruct res as [x|[]].
  - subst e.
    assert (NP : ~ page_processed s1 m).
    { intros Pr. apply PP in Pr. discriminate. }
    split; [split; [discriminate|intros [_ Pr]; contradiction]|].
    split; [intros Pr; contradiction|].
    split; [intros _; exists x; reflexivity|]. discriminate.
  - assert (Pr : page_processed s1 m) by (apply PP; reflexivity).
    destruct (ok_page_progress m s1 s2 ev1 Inv1 C1 (fun _ => Rm') B)
      as (l & t & Hl & Ht & Hb & Hy & He & Hi).
    destruct (loop_nil_cases s2) as (e' & Onil' & Ex & Aw).
    rewrite Oe in Onil'. injection Onil' as <-.
    assert (Stop : e = Exhausted <-> yielded ev1 = []).
    { rewrite Ex, Hi, negb_false_iff, Nat.eqb_eq. apply length_zero_iff_nil. }
    split; [rewrite Stop; split; [auto|intros [Y _]; exact Y]|].
    split; [intros _; exact He|].
    split; [intros NP; contradiction|].
    intros Ee rest. subst e.
    change (pre ++ ok_page m :: rest) with (pre ++ [ok_page m] ++ rest).
    rewrite (loop_app pre ([ok_page m] ++ rest) s0 s1 rw p ev0 L0).
    cbn [app]. rewrite (loop_step (ok_page m) rest s1 p I1 P1), B.
    assert (D : incomplete s2 = false) by (apply Ex; reflexivity).
    rewrite (loop_done rest s2 D), app_nil_r. reflexivity.
Qed.

Lemma emitted_bounded_witness :
  let r0 := query_all "works" 20 PyNone (Some 50) [ApiResponse 500 None] in
  let r1 := query_all "works" 20 PyNone (Some 50)
              ([ApiResponse 500 None] ++ [page 100 fifteen None (Some 0)]) in
  exists taken : list item,
    yielded (trace_of r1) = yielded (trace_of r0) ++ taken
    /\ (taken <> [] ->
        Z.of_nat (List.length (yielded (trace_of r0)))
        < Z.of_nat (List.length (yielded (trace_of r1)))).
Proof.
  destruct (emitted_bounded "works" 20 PyNone (Some 50)
              [ApiResponse 500 None]
              {| total_results := Some 100; items := Some fifteen;
                 next_cursor := None; start_index := Some 0 |}
              15 (mkParams None (Some 0))
              ltac:(simpl; lia)
              ltac:(simpl; repeat constructor; simpl; try lia)
              eq_refl)
    as (taken & Y & _ & G & _).
  exists taken. split; [exact Y|exact G].
Defined.




(** ** The pagination mode *)

Lemma params_of_cursor_mode (s : locals) (p : params) :
  offset s = None ->
  params_of s = inr p ->
  truthy (cursor s) = true
  /\ p = {| p_cursor := Some (cursor s); p_offset := None |}.
Proof.
  unfold params_of. intros O P. rewrite O in P.
  destruct (truthy (cursor s)); [|discriminate].
  injection P as <-. auto.
Qed.

Lemma params_of_offset_mode (s : locals) :
  truthy (cursor s) = false ->
  offset s <> None ->
  exists o, offset s = Some o
            /\ params_of s = inr {| p_cursor := None; p_offset := Some o |}.
Proof.
  unfold params_of. intros C O. rewrite C.
  destruct (offset s) as [o|]; [|contradiction]. exists o. auto.
Qed.

(** A run that starts with [offset] unassigned never assigns it, and every
    request it sends carries a true cursor and no offset. *)
Lemma loop_cursor_mode (script : list api_result) :
  forall (s s2 : locals) (e : ending) (ev : list event),
  offset s = None ->
  loop script s = (e, s2, ev) ->
  offset s2 = None /\ Forall carries_cursor (requests ev).
Proof.
  induction script as [|r script IH]; intros s s2 e ev O H.
  - destruct (loop_nil_cases s) as (e' & L & _). rewrite L in H.
    injection H as <- <- <-. split; [exact O|constructor].
  - simpl in H. destruct (incomplete s).
    2:{ injection H as <- <- <-. split; [exact O|constructor]. }
    rewrite build_params_eq in H.
    destruct (params_of s) as [x|p] eqn:P.
    { injection H as <- <- <-. split; [exact O|constructor]. }
    destruct (params_of_cursor_mode s p O P) as [C ->].
    simpl in H.
    destruct (loop_body r s) as [[res s1] ev1] eqn:B.
    destruct (loop_body_frame r s s1 res ev1 B)
      as (_ & _ & _ & Rq & _ & Off & _).
    assert (O1 : offset s1 = None) by (rewrite (Off C); exact O).
    assert (Here : carries_cursor
                     (rows s, {| p_cursor := Some (cursor s);
                                 p_offset := None |})).
    { split; [reflexivity|]. exists (cursor s). auto. }
    destruct res as [x|[]].
    + injection H as <- <- <-. split; [exact O1|].
      cbn [requests]. rewrite Rq. constructor; [exact Here|constructor].
    + destruct (loop script s1) as [[e' s3] ev3] eqn:L.
      injection H as <- <- <-.
      destruct (IH s1 s3 e' ev3 O1 L) as [O3 F3].
      split; [exact O3|].
      cbn [requests]. rewrite requests_app, Rq. constructor; assumption.
Qed.

(** A run that starts with a false cursor and an offset keeps that cursor,
    and every request it sends carries an offset and no cursor. *)
Lemma loop_offset_mode (script : list api_result) :
  forall (s s2 : locals) (e : ending) (ev : list event),
  truthy (cursor s) = false ->
  offset s <> None ->
  loop script s = (e, s2, ev) ->
  cursor s2 = cursor s
  /\ offset s2 <> None
  /\ Forall carries_offset (requests ev)
  /\ e <> Raised (NameError "offset").
Proof.
  induction script as [|r script IH]; intros s s2 e ev C O H.
  - destruct (loop_nil_cases s) as (e' & L & _ & A). rewrite L in H.
    injection H as <- <- <-.
    repeat split; try assumption; try constructor.
    intros ->. simpl in L. destruct (incomplete s); [|discriminate].
    destruct (params_of_offset_mode s C O) as (o & _ & P).
    rewrite build_params_eq, P in L. discriminate.
  - destruct (params_of_offset_mode s C O) as (o & Ho & P).
    simpl in H. destruct (incomplete s).
    2:{ injection H as <- <- <-.
        repeat split; try assumption; try constructor. discriminate. }
    rewrite build_params_eq, P in H. simpl in H.
    destruct (loop_body r s) as [[res s1] ev1] eqn:B.
    destruct (loop_body_frame r s s1 res ev1 B)
      as (_ & _ & _ & Rq & Cur & _ & Off).
    assert (Here : carries_offset
                     (rows s, {| p_cursor := None; p_offset := Some o |})).
    { split; [reflexivity|]. exists o. reflexivity. }
    assert (C1 : truthy (cursor s1) = false) by (rewrite (Cur C); exact C).
    destruct res as [x|[]].
    + injection H as <- <- <-.
      repeat split; auto.
      * cbn [requests]. rewrite Rq. constructor; [exact Here|constructor].
      * assert (NX : forall res, loop_body r s = (res, s1, ev1) ->
                     truthy (cursor s) = false -> offset s <> None ->
                     res <> inl (NameError "offset")).
        { clear. intros res B.
          destruct r as [|code [[st [[tr its nc si]|]]|]].
          all: loop_body_all_cases B; intros C O; try discriminate.
          all: exfalso; apply O; reflexivity. }
        specialize (NX _ B C O). congruence.
    + destruct (loop script s1) as [[e' s3] ev3] eqn:L.
      injection H as <- <- <-.
      destruct (IH s1 s3 e' ev3 C1 (Off O) L) as (C3 & O3 & F3 & N3).
      repeat split; auto.
      * rewrite C3. auto.
      * cbn [requests]. rewrite requests_app, Rq. constructor; assumption.
Qed.

Lemma loop_params_raise (script : list api_result) (s : locals) (x : exn) :
  incomplete s = true ->
  params_of s = inl x ->
  loop script s = (Raised x, s, []).
Proof.
  intros I P. destruct script; simpl; rewrite I, build_params_eq, P;
    reflexivity.
Qed.

(** One request per response consumed, while the run goes on. *)
Lemma loop_requests_length (script : list api_result) :
  forall (s s1 : locals) (rw : Z) (p : params) (ev : list event),
  loop script s = (Awaiting rw p, s1, ev) ->
  List.length (requests ev) = List.length script
  /\ batch_size s1 = batch_size s
  /\ component s1 = component s.
Proof.
  induction script as [|r script IH]; intros s s1 rw p ev H.
  - simpl in H. destruct (incomplete s); [|discriminate].
    rewrite build_params_eq in H.
    destruct (params_of s); [discriminate|].
    injection H as _ _ <- <-. auto.
  - simpl in H. destruct (incomplete s); [|discriminate].
    rewrite build_params_eq in H.
    destruct (params_of s) as [x|q]; [discriminate|]. simpl in H.
    destruct (loop_body r s) as [[[x|[]] s0] ev0] eqn:B; [discriminate|].
    destruct (loop script s0) as [[e' s3] ev3] eqn:L.
    injection H as -> -> <-.
    destruct (loop_body_frame r s s0 _ ev0 B) as (Co & Ba & _ & Rq & _).
    destruct (IH s0 s1 rw p ev3 L) as (Len & Ba1 & Co1).
    cbn [requests]. rewrite requests_app, Rq. cbn [app List.length].
    repeat split; congruence.
Qed.

(** In a frame whose cursor is true, a page that raises has yielded nothing,
    unless it is [next-cursor] that is missing. *)
Lemma loop_body_cursor_raise (m : message) (s s' : locals) (x : exn)
    (ev : list event) :
  loop_body (ok_page m) s = (inl x, s', ev) ->
  truthy (cursor s) = true ->
  next_cursor m <> None ->
  yielded ev = [].
Proof.
  intros H. remember (inl x) as res eqn:R. revert R.
  destruct m as [tr its nc si].
  loop_body_all_cases H; intros R C N; try discriminate; try reflexivity.
  all: exfalso; apply N; reflexivity.
Qed.

(** A page in offset mode: it advances [offset] by what it yields, unless
    the payload gives a [start-index] other than [offset]. *)
Lemma loop_body_offset_page (m : message) (s s' : locals)
    (res : exn + unit) (ev : list event) (o T : Z) (l : list item) :
  loop_body (ok_page m) s = (res, s', ev) ->
  truthy (cursor s) = false ->
  offset s = Some o ->
  items m = Some l ->
  total_results m = Some T ->
  (progress_bar s <> None -> total s <> None) ->
  if match start_index m with
     | Some i => o =? i
     | None => true
     end
  then res = inr tt
       /\ offset s' = Some (o + Z.of_nat (List.length (yielded ev)))
  else res = inl AssertionError /\ offset s' = Some o.
Proof.
  intros H. destruct m as [tr its nc si].
  loop_body_all_cases H; intros C O Hl HT W; try discriminate.
  all: try (exfalso; apply W; [discriminate|reflexivity]).
  all: injection O as <-.
  all: try congruence.
  all: simp_goal.
  all: rewrite ?yielded_app, ?yielded_map_Yield; cbn [yielded app].
  all: rewrite ?yielded_app, ?yielded_map_Yield, ?app_nil_r.
  all: split; reflexivity.
Qed.

(** [total] is assigned whenever the progress bar is. *)
Lemma loop_body_bar_total (response : api_result) (s s' : locals)
    (res : exn + unit) (ev : list event) :
  loop_body response s = (res, s', ev) ->
  (progress_bar s <> None -> total s <> None) ->
  progress_bar s' <> None -> total s' <> None.
Proof.
  intros H. destruct response as [|code [[st [[tr its nc si]|]]|]].
  all: loop_body_all_cases H; intros W N; try discriminate;
    try (apply W; exact N); try contradiction.
Qed.

Lemma loop_bar_total (script : list api_result) :
  forall (s s2 : locals) (e : ending) (ev : list event),
  (progress_bar s <> None -> total s <> None) ->
  loop script s = (e, s2, ev) ->
  progress_bar s2 <> None -> total s2 <> None.
Proof.
  induction script as [|r script IH]; intros s s2 e ev W H.
  - destruct (loop_nil_cases s) as (e' & L & _). rewrite L in H.
    injection H as <- <- <-. exact W.
  - simpl in H. destruct (incomplete s);
      [|injection H as <- <- <-; exact W].
    rewrite build_params_eq in H.
    destruct (params_of s) as [x|p]; [injection H as <- <- <-; exact W|].
    simpl in H.
    destruct (loop_body r s) as [[res s1] ev1] eqn:B.
    pose proof (loop_body_bar_total r s s1 res ev1 B W) as W1.
    destruct res as [x|[]]; [injection H as <- <- <-; exact W1|].
    destruct (loop script s1) as [[e' s3] ev3] eqn:L.
    injection H as <- <- <-. exact (IH s1 s3 e' ev3 W1 L).
Qed.

(** C7: a true [cursor] argument makes every request of the run carry a
    cursor and no offset, the first one the argument itself, and [offset] is
    never assigned; otherwise every request carries an offset and no cursor,
    the first one offset 0, and [cursor] is never assigned.  So a run
    advances one of the two only, and each request has exactly one of
    them. *)
Theorem mode_fixed (c : string) (b : Z) (cur : cursor_value)
    (mx : option Z) (script : list api_result) :
  let r := query_all c b cur mx script in
  hd_error (requests (trace_of r))
  = match script with
    | [] => None
    | _ :: _ => Some (b, first_params cur)
    end
  /\ if truthy cur
     then Forall carries_cursor (requests (trace_of r))
          /\ offset (frame_of r) = None
     else Forall carries_offset (requests (trace_of r))
          /\ cursor (frame_of r) = cur
          /\ offset (frame_of r) <> None.
Proof.
  cbv zeta. unfold query_all. set (s0 := initial c b cur mx).
  pose proof (params_of_initial c b cur mx) as P0. fold s0 in P0.
  fold (first_params cur) in P0.
  destruct (loop script s0) as [[e s2] ev] eqn:L.
  unfold trace_of, frame_of. cbn [fst snd]. split.
  - destruct script as [|x rest].
    + rewrite (loop_nil s0 _ eq_refl P0) in L. injection L as <- <- <-.
      reflexivity.
    + rewrite (loop_step x rest s0 _ eq_refl P0) in L.
      destruct (loop_body x s0) as [[[y|[]] s1] ev1].
      * injection L as <- <- <-. reflexivity.
      * destruct (loop rest s1) as [[e' s3] ev3].
        injection L as <- <- <-. reflexivity.
  - destruct (truthy cur) eqn:C.
    + assert (O : offset s0 = None) by (cbn; rewrite C; reflexivity).
      destruct (loop_cursor_mode script s0 s2 e ev O L) as [O2 F].
      split; assumption.
    + assert (O : offset s0 <> None) by (cbn; rewrite C; discriminate).
      destruct (loop_offset_mode script s0 s2 e ev C O L)
        as (C2 & O2 & F & _).
      repeat split; assumption.
Qed.

(** C5: in offset mode a page that is processed moves [offset] forward by
    the number of items taken from it.  When the payload gives a
    [start-index], either it equals the offset the request was sent with or
    the run ends there with an [AssertionError], the offset unchanged; a
    payload without [start-index] is processed like one that agrees. *)
Theorem offset_advances (c : string) (b : Z) (cur : cursor_value)
    (mx : option Z) (pre : list api_result) (m : message)
    (l : list item) (T rw : Z) (p : params) :
  truthy cur = false ->
  items m = Some l ->
  total_results m = Some T ->
  let r0 := query_all c b cur mx pre in
  let r1 := query_all c b cur mx (pre ++ [ok_page m]) in
  ending_of r0 = Awaiting rw p ->
  exists (o : Z) (taken : list item),
    offset (frame_of r0) = Some o
    /\ p = {| p_cursor := None; p_offset := Some o |}
    /\ yielded (trace_of r1) = yielded (trace_of r0) ++ taken
    /\ if match start_index m with
          | Some i => o =? i
          | None => true
          end
       then not_raised (ending_of r1)
            /\ offset (frame_of r1)
               = Some (o + Z.of_nat (List.length taken))
       else ending_of r1 = Raised AssertionError
            /\ offset (frame_of r1) = Some o.
Proof.
  intros C Hl HT. cbv zeta. unfold query_all.
  set (s0 := initial c b cur mx).
  destruct (loop pre s0) as [[e0 s1] ev0] eqn:L0.
  unfold ending_of, frame_of, trace_of. cbn [fst snd]. intros ->.
  assert (O0 : offset s0 <> None) by (cbn; rewrite C; discriminate).
  destruct (loop_offset_mode pre s0 s1 _ ev0 C O0 L0) as (C1 & O1 & _ & _).
  assert (C1' : truthy (cursor s1) = false) by (rewrite C1; exact C).
  destruct (params_of_offset_mode s1 C1' O1) as (o & Ho & P1).
  destruct (loop_awaiting pre s0 s1 rw p ev0 L0) as (I1 & P1' & _).
  assert (W1 : progress_bar s1 <> None -> total s1 <> None).
  { apply (loop_bar_total pre s0 s1 (Awaiting rw p) ev0); [|exact L0].
    intros N. exfalso. apply N. reflexivity. }
  rewrite (loop_app pre [ok_page m] s0 s1 rw p ev0 L0).
  pose proof (loop_one (ok_page m) s1 p I1 P1') as One.
  destruct (loop_body (ok_page m) s1) as [[res s2] ev1] eqn:B.
  pose proof (loop_body_offset_page m s1 s2 res ev1 o T l B C1' Ho Hl HT W1)
    as Page.
  destruct (loop_body_frame _ s1 s2 res ev1 B) as (_ & _ & _ & _ & Cur & _).
  exists o, (yielded ev1).
  split; [exact Ho|]. split; [congruence|].
  destruct (match start_index m with
            | Some i => o =? i
            | None => true
            end).
  - destruct Page as [-> O2]. destruct One as (e & One & Nil).
    rewrite One. cbn [fst snd].
    split; [rewrite yielded_app; reflexivity|]. split; [|exact O2].
    assert (C2 : truthy (cursor s2) = false) by (rewrite (Cur C1'); exact C1').
    assert (O2' : offset s2 <> None) by (rewrite O2; discriminate).
    destruct (loop_offset_mode [] s2 s2 e [] C2 O2' Nil) as (_ & _ & _ & NE).
    destruct e as [|x|]; try exact I.
    destruct (loop_nil_cases s2) as (e' & Nil' & _ & A).
    rewrite Nil in Nil'. injection Nil' as <-.
    simpl in Nil. destruct (incomplete s2); [|discriminate].
    destruct (params_of_offset_mode s2 C2 O2') as (o2 & _ & P2).
    rewrite build_params_eq, P2 in Nil. discriminate.
  - destruct Page as [-> O2]. rewrite One. cbn [fst snd].
    split; [rewrite yielded_app; reflexivity|]. split; [reflexivity|exact O2].
Qed.

Lemma offset_advances_witness :
  let m := {| total_results := Some 100; items := Some fifteen;
              next_cursor := None; start_index := Some 0 |} in
  let r0 := query_all "works" 20 PyNone None [ApiResponse 500 None] in
  let r1 := query_all "works" 20 PyNone None
              ([ApiResponse 500 None] ++ [ok_page m]) in
  exists (o : Z) (taken : list item),
    offset (frame_of r0) = Some o
    /\ yielded (trace_of r1) = yielded (trace_of r0) ++ taken.
Proof.
  destruct (offset_advances "works" 20 PyNone None [ApiResponse 500 None]
              {| total_results := Some 100; items := Some fifteen;
                 next_cursor := None; start_index := Some 0 |}
              fifteen 100 15 (mkParams None (Some 0))
              eq_refl eq_refl eq_refl eq_refl)
    as (o & taken & Ho & _ & Y & _).
  exists o, taken. split; [exact Ho|exact Y].
Defined.

(** C6: in cursor mode, when the run sends a request after a page, that
    request carries the [next-cursor] of the page's payload (and the full
    [batch_size]); e.g. from [cursor = '*'], a first response with
    [next-cursor = 'abc'] is followed by a request with [cursor = 'abc']. *)
Theorem cursor_follows (c : string) (b : Z) (cur : cursor_value)
    (mx : option Z) (pre : list api_result) (m : message)
    (rw rw' : Z) (p p' : params) :
  truthy cur = true ->
  ending_of (query_all c b cur mx pre) = Awaiting rw p ->
  ending_of (query_all c b cur mx (pre ++ [ok_page m])) = Awaiting rw' p' ->
  exists nc,
    next_cursor m = Some nc
    /\ truthy nc = true
    /\ p' = {| p_cursor := Some nc; p_offset := None |}
    /\ rw' = b
    /\ forall x rest,
         nth_error
           (requests
              (trace_of (query_all c b cur mx (pre ++ ok_page m :: x :: rest))))
           (S (List.length pre))
         = Some (b, p').
Proof.
  intros C. unfold query_all. set (s0 := initial c b cur mx).
  destruct (loop pre s0) as [[e0 s1] ev0] eqn:L0.
  unfold ending_of, trace_of. cbn [fst snd]. intros ->.
  assert (O0 : offset s0 = None) by (cbn; rewrite C; reflexivity).
  destruct (loop_cursor_mode pre s0 s1 _ ev0 O0 L0) as [O1 _].
  destruct (loop_awaiting pre s0 s1 rw p ev0 L0) as (I1 & P1 & _).
  destruct (params_of_cursor_mode s1 p O1 P1) as [C1 _].
  destruct (loop_requests_length pre s0 s1 rw p ev0 L0) as (Len & Ba & _).
  destruct (loop (pre ++ [ok_page m]) s0) as [[e1 s2] ev1] eqn:L1.
  cbn [fst snd]. intros ->.
  pose proof L1 as L1'.
  rewrite (loop_app pre [ok_page m] s0 s1 rw p ev0 L0) in L1'.
  pose proof (loop_one (ok_page m) s1 p I1 P1) as One.
  destruct (loop_body (ok_page m) s1) as [[[x|[]] s2'] ev2] eqn:B.
  { rewrite One in L1'. discriminate. }
  destruct One as (e & One & Nil). rewrite One in L1'.
  injection L1' as -> -> <-.
  destruct (loop_body_ok_page m s1 s2 ev2 B)
    as (l & t & b0 & _ & _ & _ & _ & _ & _ & _ & Rw & _ & _ & _ & Pos).
  rewrite C1 in Pos. destruct Pos as [Nc O2].
  destruct (loop_awaiting [] s2 s2 rw' p' [] Nil) as (I2 & P2 & Rw2).
  rewrite O1 in O2.
  destruct (params_of_cursor_mode s2 p' O2 P2) as [C2 ->].
  assert (Rows : rows s2 = b).
  { rewrite Rw, Ba. reflexivity. }
  exists (cursor s2).
  split; [exact Nc|]. split; [exact C2|]. split; [reflexivity|].
  split; [congruence|].
  intros x rest.
  change (pre ++ ok_page m :: x :: rest)
    with (pre ++ [ok_page m] ++ x :: rest).
  rewrite app_assoc.
  rewrite (loop_app (pre ++ [ok_page m]) (x :: rest) s0 s2 _ _ _ L1).
  rewrite (loop_step x rest s2 _ I2 P2).
  destruct (loop_requests_length _ s0 s2 _ _ _ L1) as (Len1 & _ & _).
  rewrite length_app, Nat.add_comm in Len1. cbn in Len1.
  destruct (loop_body x s2) as [[[y|[]] s3] ev3].
  - cbn [snd]. rewrite requests_app. cbn [requests].
    rewrite nth_error_app2 by lia.
    rewrite Len1, Nat.sub_diag, Rows. reflexivity.
  - destruct (loop rest s3) as [[e4 s4] ev4]. cbn [snd].
    rewrite requests_app. cbn [requests].
    rewrite nth_error_app2 by lia.
    rewrite Len1, Nat.sub_diag, Rows. reflexivity.
Qed.

Lemma cursor_follows_witness :
  nth_error
    (requests
       (trace_of
          (query_all "works" 20 (PyStr "*") None
             ([] ++ ok_page {| total_results := Some 100;
                               items := Some twenty;
                               next_cursor := Some (PyStr "abc");
                               start_index := None |}
                 :: ApiResponse 500 None :: []))))
    1
  = Some (20, {| p_cursor := Some (PyStr "abc"); p_offset := None |}).
Proof.
  destruct (cursor_follows "works" 20 (PyStr "*") None []
              {| total_results := Some 100; items := Some twenty;
                 next_cursor := Some (PyStr "abc"); start_index := None |}
              20 20
              {| p_cursor := Some (PyStr "*"); p_offset := None |}
              {| p_cursor := Some (PyStr "abc"); p_offset := None |}
              eq_refl eq_refl eq_refl)
    as (nc & _ & _ & _ & _ & Next).
  exact (Next (ApiResponse 500 None) []).
Defined.

(** C9, as stated, fails: with [max_items = 1] the second page returns a
    null [next-cursor] together with two items, and the run ends cleanly
    (nothing is taken from that page), without a [NameError]. *)
Lemma falsy_next_cursor_counterexample :
  let r := query_all "works" 20 (PyStr "*") (Some 1)
             [page 5 ["a"; "b"] (Some (PyStr "abc")) None;
              page 5 ["c"; "d"] (Some PyNone) None] in
  truthy PyNone = false
  /\ ending_of r = Exhausted
  /\ ending_of r <> Raised (NameError "offset")
  /\ yielded (trace_of r) = ["a"]
  /\ requests (trace_of r)
     = [(20, mkParams (Some (PyStr "*")) None);
        (20, mkParams (Some (PyStr "abc")) None)].
Proof. vm_compute. repeat split; try reflexivity; discriminate. Qed.

(** C9, amended: in cursor mode, a page that returns a false [next-cursor]
    ([None] or the empty string) and from which at least one item is taken
    (its list is not empty and [emitted < total]) ends the run with an
    uncaught [NameError] on [offset]: the next pass builds the offset
    parameters, sends no further request and is not a clean end. *)
Theorem falsy_next_cursor_raises (c : string) (b : Z) (cur : cursor_value)
    (mx : option Z) (pre rest : list api_result) (m : message)
    (nc : cursor_value) (rw : Z) (p : params) :
  truthy cur = true ->
  next_cursor m = Some nc ->
  truthy nc = false ->
  let r0 := query_all c b cur mx pre in
  let r1 := query_all c b cur mx (pre ++ ok_page m :: rest) in
  ending_of r0 = Awaiting rw p ->
  yielded (trace_of r1) <> yielded (trace_of r0) ->
  ending_of r1 = Raised (NameError "offset")
  /\ cursor (frame_of r1) = nc
  /\ offset (frame_of r1) = None
  /\ requests (trace_of r1) = requests (trace_of r0) ++ [(rw, p)].
Proof.
  intros C Hn Fn. cbv zeta. unfold query_all.
  set (s0 := initial c b cur mx).
  destruct (loop pre s0) as [[e0 s1] ev0] eqn:L0.
  unfold ending_of, frame_of, trace_of. cbn [fst snd]. intros ->.
  assert (O0 : offset s0 = None) by (cbn; rewrite C; reflexivity).
  destruct (loop_cursor_mode pre s0 s1 _ ev0 O0 L0) as [O1 _].
  destruct (loop_awaiting pre s0 s1 rw p ev0 L0) as (I1 & P1 & Rw).
  destruct (params_of_cursor_mode s1 p O1 P1) as [C1 _].
  rewrite (loop_app pre (ok_page m :: rest) s0 s1 rw p ev0 L0).
  rewrite (loop_step (ok_page m) rest s1 p I1 P1).
  destruct (loop_body (ok_page m) s1) as [[[x|[]] s2] ev1] eqn:B.
  - cbn [fst snd]. intros Y. exfalso. apply Y.
    rewrite yielded_app. cbn [yielded].
    rewrite (loop_body_cursor_raise m s1 s2 x ev1 B C1)
      by (rewrite Hn; discriminate).
    apply app_nil_r.
  - destruct (loop_body_frame _ s1 s2 _ ev1 B) as (Co & _ & _ & Rq & _).
    destruct (loop_body_ok_page m s1 s2 ev1 B)
      as (l & t & b0 & _ & _ & _ & Hev & _ & Inc & _ & _ & _ & _ & _ & Pos).
    rewrite C1 in Pos. destruct Pos as [Nc O2].
    rewrite Hn in Nc. injection Nc as Nc. rewrite O1 in O2.
    assert (Y1 : yielded ev1 = slice_to l (t - n b0)).
    { rewrite Hev. apply yielded_page_events.
      destruct (progress_bar s1); reflexivity. }
    destruct (incomplete s2) eqn:I2.
    + assert (P2 : params_of s2 = inl (NameError "offset")).
      { unfold params_of. rewrite <- Nc, Fn, O2. reflexivity. }
      rewrite (loop_params_raise rest s2 _ I2 P2). cbn [fst snd].
      intros _. repeat split; try congruence.
      rewrite requests_app. cbn [requests]. rewrite app_nil_r, Rq.
      subst rw. reflexivity.
    + rewrite (loop_done rest s2 I2). cbn [fst snd].
      intros Y. exfalso. apply Y.
      rewrite yielded_app. cbn [yielded]. rewrite app_nil_r, Y1.
      symmetry in Inc. apply negb_false_iff, Nat.eqb_eq in Inc.
      apply length_zero_iff_nil in Inc. rewrite Inc. apply app_nil_r.
Qed.

Lemma falsy_next_cursor_raises_witness :
  ending_of
    (query_all "works" 20 (PyStr "*") None
       ([] ++ ok_page {| total_results := Some 100; items := Some twenty;
                         next_cursor := Some (PyStr "");
                         start_index := None |} :: [ApiRaises]))
  = Raised (NameError "offset").
Proof.
  destruct (falsy_next_cursor_raises "works" 20 (PyStr "*") None []
              [ApiRaises]
              {| total_results := Some 100; items := Some twenty;
                 next_cursor := Some (PyStr ""); start_index := None |}
              (PyStr "") 20
              {| p_cursor := Some (PyStr "*"); p_offset := None |}
              eq_refl eq_refl eq_refl eq_refl
              ltac:(vm_compute; discriminate))
    as (E & _).
  exact E.
Defined.

(** ** Further properties of the loop *)

(** The arguments of the call are never assigned. *)
Lemma loop_keeps (script : list api_result) :
  forall (s s2 : locals) (e : ending) (ev : list event),
  loop script s = (e, s2, ev) ->
  component s2 = component s
  /\ batch_size s2 = batch_size s
  /\ max_items s2 = max_items s.
Proof.
  induction script as [|r script IH]; intros s s2 e ev H.
  - destruct (loop_nil_cases s) as (e' & L & _). rewrite L in H.
    injection H as <- <- <-. auto.
  - simpl in H. destruct (incomplete s); [|injection H as <- <- <-; auto].
    rewrite build_params_eq in H.
    destruct (params_of s) as [x|p]; [injection H as <- <- <-; auto|].
    simpl in H.
    destruct (loop_body r s) as [[res s1] ev1] eqn:B.
    destruct (loop_body_frame r s s1 res ev1 B) as (Co & Ba & Ma & _).
    destruct res as [x|[]]; [injection H as <- <- <-; auto|].
    destruct (loop script s1) as [[e' s3] ev3] eqn:L.
    injection H as <- <- <-.
    destruct (IH s1 s3 e' ev3 L) as (Co3 & Ba3 & Ma3).
    repeat split; congruence.
Qed.

(** What is known of the frame of a run that waits for a response, and how
    the run goes on with one more response. *)
Lemma awaiting_frame (c : string) (b : Z) (cur : cursor_value)
    (mx : option Z) (pre : list api_result) (rw : Z) (p : params) :
  ending_of (query_all c b cur mx pre) = Awaiting rw p ->
  let r0 := query_all c b cur mx pre in
  let s1 := frame_of r0 in
  incomplete s1 = true
  /\ params_of s1 = inr p
  /\ rw = rows s1
  /\ component s1 = c
  /\ batch_size s1 = b
  /\ max_items s1 = mx
  /\ (progress_bar s1 <> None -> total s1 <> None)
  /\ (if truthy cur
      then offset s1 = None /\ truthy (cursor s1) = true
      else cursor s1 = cur /\ offset s1 <> None)
  /\ forall x rest,
       query_all c b cur mx (pre ++ x :: rest)
       = match loop_body x s1 with
         | (inl e, s2, ev1) =>
             (Raised e, s2, trace_of r0 ++ Request c rw p :: ev1)
         | (inr _, s2, ev1) =>
             match loop rest s2 with
             | (e, s3, ev3) =>
                 (e, s3, trace_of r0 ++ Request c rw p :: ev1 ++ ev3)
             end
         end.
Proof.
  unfold query_all. set (s0 := initial c b cur mx).
  destruct (loop pre s0) as [[e0 s1] ev0] eqn:L0.
  unfold ending_of, frame_of, trace_of. cbn [fst snd]. intros ->.
  destruct (loop_awaiting pre s0 s1 rw p ev0 L0) as (I1 & P1 & Rw).
  destruct (loop_keeps pre s0 s1 _ ev0 L0) as (Co & Ba & Ma).
  assert (W : progress_bar s1 <> None -> total s1 <> None).
  { apply (loop_bar_total pre s0 s1 (Awaiting rw p) ev0); [|exact L0].
    intros N. exfalso. apply N. reflexivity. }
  repeat split; try assumption.
  - destruct (truthy cur) eqn:C.
    + assert (O0 : offset s0 = None) by (cbn; rewrite C; reflexivity).
      destruct (loop_cursor_mode pre s0 s1 _ ev0 O0 L0) as [O1 _].
      destruct (params_of_cursor_mode s1 p O1 P1) as [C1 _]. auto.
    + assert (O0 : offset s0 <> None) by (cbn; rewrite C; discriminate).
      destruct (loop_offset_mode pre s0 s1 _ ev0 C O0 L0) as (C1 & O1 & _).
      auto.
  - intros x rest.
    rewrite (loop_app pre (x :: rest) s0 s1 rw p ev0 L0).
    rewrite (loop_step x rest s1 p I1 P1).
    change (component s0) with c in Co. rewrite Co, <- Rw.
    destruct (loop_body x s1) as [[[y|[]] s2] ev1]; [reflexivity|].
    destruct (loop rest s2) as [[e s3] ev3]. reflexivity.
Qed.

(** The bar counts what a pass yields. *)
Lemma loop_body_emitted (response : api_result) (s s' : locals)
    (ev : list event) :
  loop_body response s = (inr tt, s', ev) ->
  emitted s' = emitted s + Z.of_nat (List.length (yielded ev))
  /\ (truthy (cursor s) = false ->
      forall o, offset s = Some o ->
      offset s' = Some (o + Z.of_nat (List.length (yielded ev)))).
Proof.
  intros H.
  destruct (loop_body_cases response s s' ev H)
    as [F|[(result & -> & O)|(m & ->)]].
  - rewrite (loop_body_failure response s F) in H. injection H as <- <-.
    unfold emitted. destruct s; cbn. split; [lia|].
    intros _ o ->. f_equal. lia.
  - rewrite (loop_body_not_ok result s O) in H. injection H as <- <-.
    unfold emitted. destruct s; cbn. split; [lia|].
    intros _ o ->. f_equal. lia.
  - destruct (loop_body_ok_page m s s' ev H)
      as (l & t & b0 & _ & _ & Hb & Hev & Hp & _ & _ & _ & _ & _ & _ & Pos).
    assert (Y : yielded ev = slice_to l (t - n b0)).
    { rewrite Hev. apply yielded_page_events.
      destruct (progress_bar s); reflexivity. }
    rewrite Y. split.
    + unfold emitted. rewrite Hp.
      destruct (progress_bar s) as [b1|].
      * destruct Hb as [-> _]. reflexivity.
      * destruct Hb as [-> _]. reflexivity.
    + intros C o Ho. rewrite C in Pos.
      destruct Pos as (_ & o' & Ho' & Ho2 & _). congruence.
Qed.

Lemma failure_or_200 (response : api_result) :
  is_failure response = true \/ exists body, response = ApiResponse 200 body.
Proof.
  destruct response as [|code body]; [left; reflexivity|].
  simpl. destruct (code =? 200) eqn:E; [|left; reflexivity].
  apply Z.eqb_eq in E. subst code. right. exists body. reflexivity.
Qed.

Lemma loop_body_rows_inv (response : api_result) (s s' : locals)
    (res : exn + unit) (ev : list event) :
  loop_body response s = (res, s', ev) ->
  rows_inv s ->
  rows_inv s'.
Proof.
  intros H [E R].
  destruct (loop_body_frame response s s' res ev H) as (_ & Ba & _).
  destruct (failure_or_200 response) as [F|[body ->]].
  - rewrite (loop_body_failure response s F) in H. injection H as _ <- _.
    unfold rows_inv, after_failures. destruct s; cbn in *.
    split; [lia|]. subst.
    replace (Z.to_nat (successive_errors0 + 1))
      with (S (Z.to_nat successive_errors0)) by lia.
    reflexivity.
  - destruct (loop_body_200 body s s' res ev H) as [E' R'].
    unfold rows_inv. rewrite E', R', Ba. split; [lia|reflexivity].
Qed.

Lemma loop_rows_inv (script : list api_result) :
  forall (s s2 : locals) (e : ending) (ev : list event),
  rows_inv s ->
  loop script s = (e, s2, ev) ->
  rows_inv s2
  /\ Forall (fun rq => exists k, fst rq = Nat.iter k int_075 (batch_size s))
       (requests ev).
Proof.
  induction script as [|r script IH]; intros s s2 e ev V H.
  - destruct (loop_nil_cases s) as (e' & L & _). rewrite L in H.
    injection H as <- <- <-. split; [exact V|constructor].
  - simpl in H. destruct (incomplete s).
    2:{ injection H as <- <- <-. split; [exact V|constructor]. }
    rewrite build_params_eq in H.
    destruct (params_of s) as [x|p].
    { injection H as <- <- <-. split; [exact V|constructor]. }
    simpl in H.
    destruct (loop_body r s) as [[res s1] ev1] eqn:B.
    pose proof (loop_body_rows_inv r s s1 res ev1 B V) as V1.
    destruct (loop_body_frame r s s1 res ev1 B) as (_ & Ba & _ & Rq & _).
    assert (Here : exists k, fst (rows s, p)
                             = Nat.iter k int_075 (batch_size s)).
    { exists (Z.to_nat (successive_errors s)). exact (proj2 V). }
    destruct res as [x|[]].
    + injection H as <- <- <-. split; [exact V1|].
      cbn [requests]. rewrite Rq. constructor; [exact Here|constructor].
    + destruct (loop script s1) as [[e' s3] ev3] eqn:L.
      injection H as <- <- <-.
      destruct (IH s1 s3 e' ev3 V1 L) as [V3 F3]. rewrite Ba in F3.
      split; [exact V3|].
      cbn [requests]. rewrite requests_app, Rq. constructor; assumption.
Qed.

(** ** The page size for a [batch_size] of any magnitude *)

(** Repeated shrinking moves toward 0 from either side. *)
Lemma iter_int_075_abs (k : nat) (r : Z) :
  Z.abs (Nat.iter k int_075 r) <= Z.abs r
  /\ (0 <= r -> 0 <= Nat.iter k int_075 r <= r)
  /\ (r <= 0 -> r <= Nat.iter k int_075 r <= 0).
Proof.
  induction k as [|k IH]; [cbn; repeat split; intros; lia|].
  change (Nat.iter (S k) int_075 r) with (int_075 (Nat.iter k int_075 r)).
  destruct IH as (A & P & N).
  pose proof (int_075_abs (Nat.iter k int_075 r)) as [B C].
  set (x := Nat.iter k int_075 r) in *.
  split; [lia|]. split; intros H.
  - specialize (P H). pose proof (int_075_bounds _ (proj1 P)). lia.
  - specialize (N H).
    pose proof (int_075_bounds (- x) ltac:(lia)) as D.
    rewrite int_075_opp in D. lia.
Qed.

(** Where [rows] converts to a float, [back_off_py] is [back_off]; where it
    does not, the pass ends with [OverflowError] after the sleep. *)
Lemma back_off_py_converts (s : locals) :
  converts (rows s) = true -> back_off_py s = back_off s.
Proof.
  intros C. unfold back_off_py, back_off, bind, modify, get, emit, py_int_075.
  cbn. rewrite C. reflexivity.
Qed.

Lemma back_off_py_overflow (s : locals) :
  converts (rows s) = false ->
  back_off_py s
  = (inl OverflowError, set_successive_errors (successive_errors s + 1) s,
     [Sleep (2 ^ (successive_errors s + 1))]).
Proof.
  intros C. unfold back_off_py, bind, modify, get, emit, raise, py_int_075.
  cbn. rewrite C. reflexivity.
Qed.

Lemma loop_body_py_converts (response : api_result) (s : locals) :
  converts (rows s) = true -> loop_body_py response s = loop_body response s.
Proof.
  intros C. destruct response as [|code body]; cbn.
  - apply back_off_py_converts, C.
  - destruct (negb (code =? 200)); [apply back_off_py_converts, C|reflexivity].
Qed.

Lemma loop_body_py_200 (response : api_result) (s : locals) :
  is_failure response = false -> loop_body_py response s = loop_body response s.
Proof.
  destruct response as [|code body]; cbn; [discriminate|].
  intros ->. reflexivity.
Qed.

Lemma loop_body_py_overflow (response : api_result) (s : locals) :
  is_failure response = true ->
  converts (rows s) = false ->
  loop_body_py response s
  = (inl OverflowError, set_successive_errors (successive_errors s + 1) s,
     [Sleep (2 ^ (successive_errors s + 1))]).
Proof.
  intros F C. destruct response as [|code body]; cbn in *.
  - apply back_off_py_overflow, C.
  - rewrite F. apply back_off_py_overflow, C.
Qed.

(** Every frame of a run with [|batch_size| < float_limit] has a [rows] that
    converts. *)
Lemma rows_inv_converts (s : locals) :
  rows_inv s -> Z.abs (batch_size s) < float_limit -> converts (rows s) = true.
Proof.
  intros [_ R] B. apply converts_iff. rewrite R.
  pose proof (iter_int_075_abs (Z.to_nat (successive_errors s)) (batch_size s)).
  lia.
Qed.

(** Below the float limit the two loops are the same function. *)
Lemma loop_py_refines (script : list api_result) :
  forall s : locals,
  rows_inv s ->
  Z.abs (batch_size s) < float_limit ->
  loop_py script s = loop script s.
Proof.
  induction script as [|r script IH]; intros s V B; [reflexivity|].
  cbn [loop_py loop].
  destruct (negb (incomplete s)); [reflexivity|].
  rewrite build_params_eq. destruct (params_of s) as [x|p]; [reflexivity|].
  rewrite (loop_body_py_converts r s (rows_inv_converts s V B)).
  destruct (loop_body r s) as [[res s1] ev1] eqn:L.
  pose proof (loop_body_rows_inv r s s1 res ev1 L V) as V1.
  destruct (loop_body_frame r s s1 res ev1 L) as (_ & Ba & _).
  destruct res as [x|[]]; [reflexivity|].
  rewrite (IH s1 V1) by (rewrite Ba; exact B). reflexivity.
Qed.

(** So every statement about [query_all] holds of [query_all_py] for such a
    [batch_size]. *)
Lemma query_all_py_refines (c : string) (b : Z) (cur : cursor_value)
    (mx : option Z) (script : list api_result) :
  Z.abs b < float_limit ->
  query_all_py c b cur mx script = query_all c b cur mx script.
Proof.
  intros B. apply loop_py_refines; [|exact B].
  split; [cbn; lia|reflexivity].
Qed.

(** [loop], which takes the products to have a value, never raises
    [OverflowError]. *)
Lemma loop_body_no_overflow (response : api_result) (s s' : locals)
    (ev : list event) :
  loop_body response s <> (inl OverflowError, s', ev).
Proof.
  intros H. remember (inl OverflowError) as res eqn:R. revert R.
  destruct response as [|code [[st [[tr its nc si]|]]|]].
  all: loop_body_all_cases H; intros R; discriminate.
Qed.

Lemma loop_no_overflow (script : list api_result) :
  forall (s s2 : locals) (ev : list event),
  loop script s <> (Raised OverflowError, s2, ev).
Proof.
  induction script as [|r script IH]; intros s s2 ev H.
  - simpl in H. destruct (incomplete s); [|discriminate].
    rewrite build_params_eq in H. unfold params_of in H.
    destruct (truthy (cursor s)); [discriminate|].
    destruct (offset s); discriminate.
  - simpl in H. destruct (incomplete s); [|discriminate].
    rewrite build_params_eq in H.
    destruct (params_of s) as [x|p] eqn:P.
    { unfold params_of in P. destruct (truthy (cursor s)); [discriminate|].
      destruct (offset s); [discriminate|].
      injection P as <-. discriminate. }
    simpl in H.
    destruct (loop_body r s) as [[[x|[]] s1] ev1] eqn:B.
    + injection H as -> <- _. exact (loop_body_no_overflow r s s1 ev1 B).
    + destruct (loop script s1) as [[e' s3] ev3] eqn:L.
      injection H as -> <- _. exact (IH s1 s3 ev3 L).
Qed.

(** C2, as stated, fails: from [batch_size = 20], five failures in a row
    leave [rows = 4], where [round(20 * 0.75^5) = round(4.746...) = 5]. *)
Lemma rows_formula_counterexample :
  let r := query_all "works" 20 PyNone None
             (repeat (ApiResponse 500 None) 5) in
  ending_of r = Awaiting 4 (mkParams None (Some 0))
  /\ rows (frame_of r) = 4
  /\ spec_current_rows 20 5 = 5
  /\ rows (frame_of r) <> spec_current_rows 20 5.
Proof. vm_compute. repeat split; try reflexivity; discriminate. Qed.

(** C2, amended: for a [batch_size] that converts to a float, after [k]
    failures in a row with no HTTP 200 in between, [rows] is [batch_size]
    shrunk [k] times by [int(0.75 * rows)], each shrink truncating the float
    product (and no shrink overflows); [successive_errors] is [k]; the sleep
    before the [k]-th retry is [2^k]; the position sent does not change.
    As long as [3 * |batch_size| < 2^53] each shrink is the integer quotient
    of [3 * rows] by 4. *)
Theorem failure_streak (fs : list api_result) (s : locals) (p : params) :
  Forall (fun r => is_failure r = true) fs ->
  incomplete s = true ->
  params_of s = inr p ->
  successive_errors s = 0 ->
  rows s = batch_size s ->
  Z.abs (batch_size s) < float_limit ->
  let k := List.length fs in
  let r := loop_py fs s in
  rows (frame_of r) = Nat.iter k int_075 (batch_size s)
  /\ successive_errors (frame_of r) = Z.of_nat k
  /\ sleeps (trace_of r) = map (fun i => 2 ^ Z.of_nat i) (seq 1 k)
  /\ requests (trace_of r)
     = map (fun i => (Nat.iter i int_075 (batch_size s), p)) (seq 0 k)
  /\ ending_of r = Awaiting (Nat.iter k int_075 (batch_size s)) p
  /\ (forall i : nat,
        py_int_075 (Nat.iter i int_075 (batch_size s))
        = inr (Nat.iter (S i) int_075 (batch_size s)))
  /\ (3 * Z.abs (batch_size s) < 2 ^ 53 ->
      forall i : nat,
        Nat.iter (S i) int_075 (batch_size s)
        = Z.quot (3 * Nat.iter i int_075 (batch_size s)) 4).
Proof.
  intros F I P E R B. cbv zeta.
  rewrite (loop_py_refines fs s)
    by first [exact B | split; [lia | rewrite E; exact R]].
  rewrite (loop_failures fs s p F I P).
  unfold frame_of, trace_of, ending_of. cbn [fst snd].
  rewrite sleeps_streak, requests_streak. unfold after_failures.
  assert (A : forall i, Z.abs (Nat.iter i int_075 (batch_size s))
                        <= Z.abs (batch_size s)).
  { intros i. apply iter_int_075_abs. }
  split; [destruct s; cbn in *; subst; reflexivity|].
  split; [destruct s; cbn in *; subst; reflexivity|].
  split; [destruct s; cbn in *; subst; reflexivity|].
  split; [destruct s; cbn in *; subst; reflexivity|].
  split; [destruct s; cbn in *; subst; reflexivity|].
  split.
  - intros i. unfold py_int_075.
    replace (converts (Nat.iter i int_075 (batch_size s))) with true;
      [reflexivity|].
    symmetry. apply converts_iff. specialize (A i). lia.
  - intros X i.
    change (Nat.iter (S i) int_075 (batch_size s))
      with (int_075 (Nat.iter i int_075 (batch_size s))).
    apply int_075_exact. specialize (A i). lia.
Qed.

Lemma failure_streak_witness :
  let r := loop_py [ApiRaises; ApiResponse 503 None; ApiRaises]
             (initial "works" 20 PyNone None) in
  rows (frame_of r) = 8 /\ sleeps (trace_of r) = [2; 4; 8].
Proof.
  pose proof (failure_streak [ApiRaises; ApiResponse 503 None; ApiRaises]
                (initial "works" 20 PyNone None) (mkParams None (Some 0))
                ltac:(repeat constructor) eq_refl eq_refl eq_refl eq_refl
                ltac:(vm_compute; reflexivity))
    as (R & _ & S & _).
  split; [exact R|exact S].
Defined.

(** C10, as stated, fails: [batch_size = 2^1024] is positive, but
    [0.75 * rows] cannot convert it to a float, so the first failure ends
    the run with [OverflowError] after its sleep; [rows] is never shrunk, and
    a longer streak changes nothing, the later responses not being asked
    for. *)
Lemma rows_overflow_counterexample :
  let r1 := query_all_py "works" (2 ^ 1024) PyNone None
              [ApiResponse 500 None] in
  let r9 := query_all_py "works" (2 ^ 1024) PyNone None
              (repeat (ApiResponse 500 None) 9) in
  0 < 2 ^ 1024
  /\ py_int_075 (2 ^ 1024) = inl OverflowError
  /\ ending_of r1 = Raised OverflowError
  /\ rows (frame_of r1) = 2 ^ 1024
  /\ requests (trace_of r1) = [(2 ^ 1024, mkParams None (Some 0))]
  /\ sleeps (trace_of r1) = [2]
  /\ r9 = r1.
Proof. vm_compute. repeat split; reflexivity. Qed.

(** C10, amended: for a positive [batch_size] that converts to a float,
    [int(0.75 * rows)] brings [rows] to 0 after finitely many failures in a
    row (for 20, at the ninth and not before) and keeps it there; every
    later retry asks for [rows = 0]; and however long the streak, the loop
    neither ends nor raises: it is about to send the next request, after
    sleeps that double each time. *)
Theorem rows_reach_zero (b : Z) :
  0 < b < float_limit ->
  Nat.iter 8 int_075 20 = 1
  /\ Nat.iter 9 int_075 20 = 0
  /\ exists k : nat,
       (forall j, (k <= j)%nat -> Nat.iter j int_075 b = 0)
       /\ forall (c : string) (cur : cursor_value) (mx : option Z)
                 (fs : list api_result),
            Forall (fun r => is_failure r = true) fs ->
            (k <= List.length fs)%nat ->
            let r := query_all_py c b cur mx fs in
            exists p,
              ending_of r = Awaiting 0 p
              /\ rows (frame_of r) = 0
              /\ incomplete (frame_of r) = true
              /\ (forall i, (k <= i < List.length fs)%nat ->
                            nth_error (requests (trace_of r)) i = Some (0, p))
              /\ sleeps (trace_of r)
                 = map (fun i => 2 ^ Z.of_nat i) (seq 1 (List.length fs)).
Proof.
  intros B. split; [reflexivity|]. split; [reflexivity|].
  assert (Z0 : forall j, (Z.to_nat b <= j)%nat -> Nat.iter j int_075 b = 0).
  { intros j J. pose proof (iter_int_075_bound j b ltac:(lia)). lia. }
  exists (Z.to_nat b). split; [exact Z0|].
  intros c cur mx fs F L. cbv zeta.
  rewrite (query_all_py_refines c b cur mx fs) by lia.
  unfold query_all.
  pose proof (params_of_initial c b cur mx) as P.
  set (p := if truthy cur
            then {| p_cursor := Some cur; p_offset := None |}
            else {| p_cursor := None; p_offset := Some 0 |}) in P.
  exists p.
  rewrite (loop_failures fs (initial c b cur mx) p F eq_refl P).
  unfold ending_of, frame_of, trace_of, after_failures.
  cbn [fst snd rows set_rows successive_errors initial component].
  rewrite sleeps_streak, requests_streak, (Z0 _ L).
  repeat split.
  - intros i [I1 I2].
    rewrite nth_error_map, nth_error_seq.
    destruct (Nat.ltb_spec i (List.length fs)); [|lia].
    cbn [option_map Nat.add]. rewrite (Z0 i I1). reflexivity.
Qed.

Lemma rows_reach_zero_witness :
  exists k : nat, forall j, (k <= j)%nat -> Nat.iter j int_075 20 = 0.
Proof.
  destruct (rows_reach_zero 20 ltac:(split; vm_compute; reflexivity))
    as (_ & _ & k & Z0 & _).
  exists k. exact Z0.
Defined.

(** X1: in a run whose [batch_size] converts to a float no shrink overflows
    and, at every point, [rows] is [batch_size] shrunk [successive_errors]
    times, whatever mix of failures, not-ok payloads and pages came before;
    so every request asks for a number of rows between 0 and [batch_size],
    whichever sign [batch_size] has. *)
Theorem rows_follow_errors (c : string) (b : Z) (cur : cursor_value)
    (mx : option Z) (script : list api_result) :
  Z.abs b < float_limit ->
  let r := query_all_py c b cur mx script in
  ending_of r <> Raised OverflowError
  /\ 0 <= successive_errors (frame_of r)
  /\ rows (frame_of r)
     = Nat.iter (Z.to_nat (successive_errors (frame_of r))) int_075 b
  /\ Forall (fun rq => 0 <= fst rq <= b \/ b <= fst rq <= 0)
       (requests (trace_of r)).
Proof.
  intros B. cbv zeta. rewrite (query_all_py_refines c b cur mx script B).
  unfold query_all. set (s0 := initial c b cur mx).
  destruct (loop script s0) as [[e s2] ev] eqn:L.
  unfold ending_of, frame_of, trace_of. cbn [fst snd].
  assert (V0 : rows_inv s0) by (split; [cbn; lia|reflexivity]).
  destruct (loop_rows_inv script s0 s2 e ev V0 L) as [[E R] F].
  destruct (loop_keeps script s0 s2 e ev L) as (_ & Ba & _).
  rewrite Ba in R.
  split; [intros ->; exact (loop_no_overflow script s0 s2 ev L)|].
  split; [exact E|]. split; [exact R|].
  eapply Forall_impl; [|exact F].
  intros rq [k ->]. cbn [batch_size s0 initial].
  destruct (iter_int_075_abs k b) as (_ & P & N).
  destruct (Z.le_ge_cases 0 b); [left; auto|right; auto].
Qed.

Lemma rows_follow_errors_witness :
  Forall (fun rq => 0 <= fst rq <= 20 \/ 20 <= fst rq <= 0)
    (requests
       (trace_of
          (query_all_py "works" 20 PyNone None
             [ApiRaises; ApiResponse 200 (Some not_ok_payload); ApiRaises]))).
Proof.
  destruct (rows_follow_errors "works" 20 PyNone None
              [ApiRaises; ApiResponse 200 (Some not_ok_payload); ApiRaises]
              ltac:(vm_compute; reflexivity)) as (_ & _ & _ & F).
  exact F.
Defined.

(** The offset and the count of the bar along a run in offset mode. *)
Lemma loop_offset_emitted (script : list api_result) :
  forall (s s2 : locals) (e : ending) (ev : list event) (o : Z),
  truthy (cursor s) = false ->
  offset s = Some o ->
  loop script s = (e, s2, ev) ->
  not_raised e ->
  offset s2 = Some (o + Z.of_nat (List.length (yielded ev)))
  /\ emitted s2 = emitted s + Z.of_nat (List.length (yielded ev)).
Proof.
  induction script as [|r script IH]; intros s s2 e ev o C O H N.
  - destruct (loop_nil_cases s) as (e' & L & _). rewrite L in H.
    injection H as <- <- <-. cbn. rewrite !Z.add_0_r. auto.
  - simpl in H. destruct (incomplete s).
    2:{ injection H as <- <- <-. cbn. rewrite !Z.add_0_r. auto. }
    rewrite build_params_eq in H.
    destruct (params_of s) as [x|p];
      [injection H as <- <- <-; contradiction|].
    simpl in H.
    destruct (loop_body r s) as [[[x|[]] s1] ev1] eqn:B;
      [injection H as <- <- <-; contradiction|].
    destruct (loop script s1) as [[e' s3] ev3] eqn:L.
    injection H as <- <- <-.
    destruct (loop_body_emitted r s s1 ev1 B) as [E1 O1].
    specialize (O1 C o O).
    destruct (loop_body_frame r s s1 _ ev1 B) as (_ & _ & _ & _ & Cur & _).
    assert (C1 : truthy (cursor s1) = false) by (rewrite (Cur C); exact C).
    destruct (IH s1 s3 e' ev3 _ C1 O1 L N) as [O3 E3].
    cbn [yielded]. rewrite yielded_app, length_app, Nat2Z.inj_add.
    split; [rewrite O3; f_equal; lia|lia].
Qed.

(** X3: in offset mode, whenever the run has not raised, [offset] is the
    number of items yielded so far, and so is the count of the progress
    bar: the offset of the next request is exactly what the consumer has
    received. *)
Theorem offset_counts_yielded (c : string) (b : Z) (cur : cursor_value)
    (mx : option Z) (script : list api_result) :
  truthy cur = false ->
  let r := query_all c b cur mx script in
  not_raised (ending_of r) ->
  offset (frame_of r) = Some (Z.of_nat (List.length (yielded (trace_of r))))
  /\ emitted (frame_of r) = Z.of_nat (List.length (yielded (trace_of r)))
  /\ forall rw p, ending_of r = Awaiting rw p ->
       p_offset p = Some (Z.of_nat (List.length (yielded (trace_of r)))).
Proof.
  intros C. cbv zeta. unfold query_all. set (s0 := initial c b cur mx).
  destruct (loop script s0) as [[e s2] ev] eqn:L.
  unfold frame_of, trace_of, ending_of. cbn [fst snd]. intros N.
  assert (O0 : offset s0 = Some 0) by (cbn; rewrite C; reflexivity).
  destruct (loop_offset_emitted script s0 s2 e ev 0 C O0 L N) as [O E].
  rewrite Z.add_0_l in O. change (emitted s0) with 0 in E.
  rewrite Z.add_0_l in E.
  split; [exact O|]. split; [exact E|].
  intros rw p ->.
  destruct (loop_awaiting script s0 s2 rw p ev L) as (_ & P & _).
  assert (O0' : offset s0 <> None) by (rewrite O0; discriminate).
  destruct (loop_offset_mode script s0 s2 _ ev C O0' L) as (C2 & _).
  change (cursor s0) with cur in C2.
  unfold params_of in P. rewrite C2, C, O in P. injection P as <-.
  reflexivity.
Qed.

Lemma offset_counts_yielded_witness :
  offset
    (frame_of
       (query_all "works" 20 PyNone None
          [ApiResponse 500 None; page 100 fifteen None (Some 0)]))
  = Some
      (Z.of_nat
         (List.length
            (yielded
               (trace_of
                  (query_all "works" 20 PyNone None
                     [ApiResponse 500 None;
                      page 100 fifteen None (Some 0)]))))).
Proof.
  destruct (offset_counts_yielded "works" 20 PyNone None
              [ApiResponse 500 None; page 100 fifteen None (Some 0)]
              eq_refl I) as (O & _).
  exact O.
Defined.

Lemma page_items_retried (response : api_result) :
  retried response = true -> page_items response = [].
Proof.
  destruct response as [|code [result|]]; try reflexivity.
  simpl. destruct (code =? 200); [|reflexivity].
  destruct (status_ok result); [discriminate|reflexivity].
Qed.

Lemma retried_cases (response : api_result) :
  is_failure response = true
  \/ (exists result, response = ApiResponse 200 (Some result)
                     /\ status_ok result = false) ->
  retried response = true.
Proof.
  intros [F|(result & -> & O)].
  - destruct response as [|code body]; [reflexivity|].
    simpl in *. destruct (code =? 200); [discriminate|reflexivity].
  - simpl. rewrite O. reflexivity.
Qed.

Lemma firstn_page (l rest : list item) (k : Z) :
  0 <= k ->
  firstn (Z.to_nat k) (l ++ rest)
  = firstn (Z.to_nat k) l
    ++ firstn (Z.to_nat (k - Z.of_nat (List.length (firstn (Z.to_nat k) l))))
         rest.
Proof.
  intros K. rewrite firstn_app, length_firstn. f_equal. f_equal. lia.
Qed.

(** What a run yields, when every response of the script was consumed: the
    items of the pages in order, cut at [total]. *)
Lemma loop_yields_prefix (script : list api_result) :
  forall (s s2 : locals) (e : ending) (ev : list event),
  progress_inv s ->
  cap_nonneg (max_items s) ->
  (progress_bar s = None -> Forall reports_nonneg script) ->
  loop script s = (e, s2, ev) ->
  not_raised e ->
  List.length (requests ev) = List.length script ->
  match total s2 with
  | Some t =>
      yielded ev
      = firstn (Z.to_nat (t - emitted s)) (List.concat (map page_items script))
  | None => yielded ev = []
  end.
Proof.
  induction script as [|r script IH]; intros s s2 e ev I C R H N Len.
  - destruct (loop_nil_cases s) as (e' & L & _). rewrite L in H.
    injection H as <- <- <-. cbn. destruct (total s); [|reflexivity].
    rewrite firstn_nil. reflexivity.
  - assert (Rr : progress_bar s = None -> reports_nonneg r).
    { intros PB. specialize (R PB). inversion R; assumption. }
    assert (Rs : progress_bar s = None -> Forall reports_nonneg script).
    { intros PB. specialize (R PB). inversion R; assumption. }
    simpl in H. destruct (incomplete s).
    2:{ injection H as <- <- <-. discriminate. }
    rewrite build_params_eq in H.
    destruct (params_of s) as [x|p];
      [injection H as <- <- <-; contradiction|].
    simpl in H.
    destruct (loop_body r s) as [[[x|[]] s1] ev1] eqn:B;
      [injection H as <- <- <-; contradiction|].
    destruct (loop script s1) as [[e' s3] ev3] eqn:L.
    injection H as <- <- <-.
    destruct (loop_body_frame r s s1 _ ev1 B) as (_ & _ & _ & Rq & _).
    cbn [requests] in Len. rewrite requests_app, Rq in Len.
    cbn [app List.length] in Len. injection Len as Len.
    destruct (loop_body_progress r s s1 ev1 I C Rr B) as (I1 & M1 & K1 & E1).
    assert (C1 : cap_nonneg (max_items s1)) by (rewrite M1; exact C).
    assert (Rs1 : progress_bar s1 = None -> Forall reports_nonneg script).
    { intros PB1. apply Rs.
      destruct (progress_bar s); [|reflexivity].
      exfalso. apply K1; [discriminate|exact PB1]. }
    specialize (IH s1 s3 e' ev3 I1 C1 Rs1 L N Len).
    cbn [yielded map List.concat]. rewrite yielded_app.
    destruct (loop_body_cases r s s1 ev1 B)
      as [F|[(result & -> & O)|(m & ->)]].
    + rewrite (page_items_retried r (retried_cases r (or_introl F))).
      rewrite (loop_body_failure r s F) in B. injection B as <- <-.
      cbn [yielded app]. exact IH.
    + rewrite (page_items_retried _
                 (retried_cases _ (or_intror (ex_intro _ result
                                                (conj eq_refl O))))).
      rewrite (loop_body_not_ok result s O) in B. injection B as <- <-.
      cbn [yielded app]. exact IH.
    + destruct (ok_page_progress m s s1 ev1 I C Rr B)
        as (l & t & Hl & Ht & Hb & Hy & He & _).
      destruct (loop_body_ok_page m s s1 ev1 B)
        as (l' & t' & b0 & _ & _ & _ & _ & Hp & _).
      assert (N1 : progress_bar s1 <> None) by (rewrite Hp; discriminate).
      pose proof (loop_total_kept script s1 N1) as K.
      rewrite L in K. unfold frame_of in K. cbn in K.
      rewrite K, Ht in IH |- *.
      assert (PI : page_items (ok_page m) = l).
      { cbn. rewrite Hl. reflexivity. }
      rewrite PI, (firstn_page l _ (t - emitted s)) by lia.
      rewrite <- Hy, IH. do 3 f_equal. lia.
Qed.

(** X2: a run that has not raised and has consumed its whole script has
    yielded the items of the successive ["ok"] pages, in their order and
    without gap or repetition, cut after [total] items; nothing is yielded
    before [total] is known. *)
Theorem yielded_is_prefix (c : string) (b : Z) (cur : cursor_value)
    (mx : option Z) (script : list api_result) :
  cap_nonneg mx ->
  Forall reports_nonneg script ->
  let r := query_all c b cur mx script in
  not_raised (ending_of r) ->
  List.length (requests (trace_of r)) = List.length script ->
  yielded (trace_of r)
  = match total (frame_of r) with
    | Some t => firstn (Z.to_nat t) (List.concat (map page_items script))
    | None => []
    end.
Proof.
  intros C R. cbv zeta. unfold query_all. set (s0 := initial c b cur mx).
  destruct (loop script s0) as [[e s2] ev] eqn:L.
  unfold frame_of, trace_of, ending_of. cbn [fst snd]. intros N Len.
  pose proof (loop_yields_prefix script s0 s2 e ev
                (progress_inv_initial c b cur mx) C (fun _ => R) L N Len)
    as Y.
  destruct (total s2) as [t|]; [|exact Y].
  change (emitted s0) with 0 in Y. rewrite Z.sub_0_r in Y. exact Y.
Qed.

Lemma yielded_is_prefix_witness :
  yielded
    (trace_of
       (query_all "works" 20 PyNone (Some 50)
          [page 1000 twenty None (Some 0);
           ApiResponse 500 None;
           page 1000 twenty None (Some 20)]))
  = match
      total
        (frame_of
           (query_all "works" 20 PyNone (Some 50)
              [page 1000 twenty None (Some 0);
               ApiResponse 500 None;
               page 1000 twenty None (Some 20)]))
    with
    | Some t =>
        firstn (Z.to_nat t)
          (List.concat
             (map page_items
                [page 1000 twenty None (Some 0);
                 ApiResponse 500 None;
                 page 1000 twenty None (Some 20)]))
    | None => []
    end.
Proof.
  apply (yielded_is_prefix "works" 20 PyNone (Some 50)).
  - simpl. lia.
  - repeat constructor; simpl; lia.
  - vm_compute. exact I.
  - vm_compute. reflexivity.
Defined.

(** ** Exceptions that end a run *)

(** The keys read before anything is yielded. *)
Lemma loop_body_missing_key (mo : option message) (s s' : locals)
    (res : exn + unit) (ev : list event) :
  loop_body (ok_payload mo) s = (res, s', ev) ->
  (progress_bar s <> None -> total s <> None) ->
  match mo with
  | None => res = inl (KeyError "message") /\ yielded ev = []
  | Some m =>
      (progress_bar s = None -> total_results m = None ->
       res = inl (KeyError "total-results") /\ yielded ev = []
       /\ progress_bar s' = None)
      /\ ((progress_bar s <> None \/ total_results m <> None) ->
          items m = None ->
          res = inl (KeyError "items") /\ yielded ev = []
          /\ progress_bar s' <> None)
  end.
Proof.
  intros H. unfold ok_payload in H. destruct mo as [[tr its nc si]|].
  all: loop_body_all_cases H; intros W; simp_goal.
  all: try (exfalso; apply W; [discriminate|reflexivity]).
  all: repeat split; try reflexivity; try discriminate; try congruence.
  all: try (intros [N|N]; congruence).
  all: try (intros [N|N] E; congruence).
  all: try (intros _ E; congruence).
  all: match goal with
       | D : _ \/ _ |- _ => destruct D as [N|N]; exfalso; apply N; reflexivity
       end.
Qed.

(** What has happened when the position update raises: the items of the
    page were yielded, the bar was not updated. *)
Lemma loop_body_position_raise (m : message) (s s' : locals)
    (res : exn + unit) (ev : list event) (l : list item) :
  loop_body (ok_page m) s = (res, s', ev) ->
  (progress_bar s <> None -> total s <> None) ->
  (progress_bar s = None -> total_results m <> None) ->
  items m = Some l ->
  (if truthy (cursor s) then next_cursor m = None
   else exists o i, offset s = Some o /\ start_index m = Some i /\ o <> i) ->
  res = inl (if truthy (cursor s) then KeyError "next-cursor"
             else AssertionError)
  /\ cursor s' = cursor s
  /\ offset s' = offset s
  /\ emitted s' = emitted s
  /\ incomplete s' = incomplete s
  /\ exists t, total s' = Some t
               /\ yielded ev = slice_to l (t - emitted s).
Proof.
  intros H. destruct m as [tr its nc si].
  loop_body_all_cases H; intros W WT Hl Pos; simp_goal.
  all: try (exfalso; apply W; [discriminate|reflexivity]).
  all: try (exfalso; apply WT; reflexivity).
  all: try discriminate.
  all: try (destruct Pos as (o' & i' & Ho & Hi & Ne); try discriminate).
  all: try (injection Ho as <-; injection Hi as <-).
  all: try (exfalso; apply Ne;
            match goal with
            | E : (_ =? _) = true |- _ => apply Z.eqb_eq in E; exact E
            end).
  all: injection Hl as <-.
  all: unfold emitted; simp_goal.
  all: rewrite ?yielded_app, ?yielded_map_Yield; cbn [yielded app].
  all: rewrite ?yielded_app, ?yielded_map_Yield, ?app_nil_r.
  all: repeat split; try reflexivity.
  all: eexists; split; reflexivity.
Qed.

Lemma loop_body_unparseable (s s' : locals) (res : exn + unit)
    (ev : list event) :
  loop_body (ApiResponse 200 None) s = (res, s', ev) ->
  res = inl JSONDecodeError /\ ev = [].
Proof. intros H. loop_body_all_cases H. auto. Qed.

(** X4: an HTTP 200 whose body is not JSON is not retried: [response.json()]
    raises outside the [try], the run ends there with that exception, with
    the error count and [rows] already reset, and whatever the upstream
    would answer next is never asked for. *)
Theorem unparseable_body_raises (c : string) (b : Z) (cur : cursor_value)
    (mx : option Z) (pre rest : list api_result) (rw : Z) (p : params) :
  ending_of (query_all c b cur mx pre) = Awaiting rw p ->
  let r0 := query_all c b cur mx pre in
  let r := query_all c b cur mx (pre ++ ApiResponse 200 None :: rest) in
  ending_of r = Raised JSONDecodeError
  /\ trace_of r = trace_of r0 ++ [Request c rw p]
  /\ successive_errors (frame_of r) = 0
  /\ rows (frame_of r) = b.
Proof.
  intros A. cbv zeta.
  destruct (awaiting_frame c b cur mx pre rw p A)
    as (_ & _ & _ & _ & Ba & _ & _ & _ & Step).
  rewrite (Step (ApiResponse 200 None) rest).
  destruct (loop_body (ApiResponse 200 None)
              (frame_of (query_all c b cur mx pre)))
    as [[res s2] ev1] eqn:B.
  destruct (loop_body_200 None _ s2 res ev1 B) as [E R].
  destruct (loop_body_unparseable _ s2 res ev1 B) as [-> ->].
  unfold ending_of, frame_of, trace_of. cbn [fst snd].
  repeat split; congruence.
Qed.

Lemma unparseable_body_raises_witness :
  ending_of
    (query_all "works" 20 PyNone None
       ([ApiRaises] ++ ApiResponse 200 None :: [ApiRaises]))
  = Raised JSONDecodeError.
Proof.
  destruct (unparseable_body_raises "works" 20 PyNone None [ApiRaises]
              [ApiRaises] 15 (mkParams None (Some 0)) eq_refl)
    as (E & _).
  exact E.
Defined.

(** X5: an ["ok"] payload that lacks a key the loop reads ends the run with
    the [KeyError] of that key before anything of the page is yielded:
    [message]; [total-results], on the first ["ok"] payload only (later
    ones may omit it); [items]. *)
Theorem missing_key_raises (c : string) (b : Z) (cur : cursor_value)
    (mx : option Z) (pre rest : list api_result) (mo : option message)
    (rw : Z) (p : params) :
  ending_of (query_all c b cur mx pre) = Awaiting rw p ->
  let r0 := query_all c b cur mx pre in
  let r := query_all c b cur mx (pre ++ ok_payload mo :: rest) in
  match mo with
  | None =>
      ending_of r = Raised (KeyError "message")
      /\ yielded (trace_of r) = yielded (trace_of r0)
  | Some m =>
      (progress_bar (frame_of r0) = None -> total_results m = None ->
       ending_of r = Raised (KeyError "total-results")
       /\ yielded (trace_of r) = yielded (trace_of r0))
      /\ ((progress_bar (frame_of r0) <> None \/ total_results m <> None) ->
          items m = None ->
          ending_of r = Raised (KeyError "items")
          /\ yielded (trace_of r) = yielded (trace_of r0))
  end.
Proof.
  intros A. cbv zeta.
  destruct (awaiting_frame c b cur mx pre rw p A)
    as (_ & _ & _ & _ & _ & _ & W & _ & Step).
  rewrite (Step (ok_payload mo) rest).
  destruct (loop_body (ok_payload mo) (frame_of (query_all c b cur mx pre)))
    as [[res s2] ev1] eqn:B.
  pose proof (loop_body_missing_key mo _ s2 res ev1 B W) as K.
  destruct mo as [m|].
  - destruct K as [K1 K2]. split.
    + intros PB TR. destruct (K1 PB TR) as (-> & Y & _).
      unfold ending_of, trace_of. cbn [fst snd].
      split; [reflexivity|].
      rewrite yielded_app. cbn [yielded]. rewrite Y. apply app_nil_r.
    + intros PB IT. destruct (K2 PB IT) as (-> & Y & _).
      unfold ending_of, trace_of. cbn [fst snd].
      split; [reflexivity|].
      rewrite yielded_app. cbn [yielded]. rewrite Y. apply app_nil_r.
  - destruct K as [-> Y].
    unfold ending_of, trace_of. cbn [fst snd].
    split; [reflexivity|].
    rewrite yielded_app. cbn [yielded]. rewrite Y. apply app_nil_r.
Qed.

Lemma missing_key_raises_witness :
  ending_of
    (query_all "works" 20 PyNone None
       ([ApiRaises] ++ ok_payload None :: []))
  = Raised (KeyError "message").
Proof.
  destruct (missing_key_raises "works" 20 PyNone None [ApiRaises] []
              None 15 (mkParams None (Some 0)) eq_refl)
    as (E & _).
  exact E.
Defined.

(** X6: in cursor mode a page without [next-cursor] ends the run with
    [KeyError], but only after the items of the page were yielded: the
    consumer has them, while the progress bar and the cursor are as before
    the page. *)
Theorem missing_next_cursor_raises (c : string) (b : Z)
    (cur : cursor_value) (mx : option Z) (pre rest : list api_result)
    (m : message) (l : list item) (T rw : Z) (p : params) :
  truthy cur = true ->
  ending_of (query_all c b cur mx pre) = Awaiting rw p ->
  items m = Some l ->
  total_results m = Some T ->
  next_cursor m = None ->
  let r0 := query_all c b cur mx pre in
  let r := query_all c b cur mx (pre ++ ok_page m :: rest) in
  ending_of r = Raised (KeyError "next-cursor")
  /\ cursor (frame_of r) = cursor (frame_of r0)
  /\ emitted (frame_of r) = emitted (frame_of r0)
  /\ exists t,
       total (frame_of r) = Some t
       /\ yielded (trace_of r)
          = yielded (trace_of r0)
            ++ slice_to l (t - emitted (frame_of r0)).
Proof.
  intros C A Hl HT Hn. cbv zeta.
  destruct (awaiting_frame c b cur mx pre rw p A)
    as (_ & _ & _ & _ & _ & _ & W & Mode & Step).
  rewrite C in Mode. destruct Mode as [_ C1].
  rewrite (Step (ok_page m) rest).
  destruct (loop_body (ok_page m) (frame_of (query_all c b cur mx pre)))
    as [[res s2] ev1] eqn:B.
  destruct (loop_body_position_raise m _ s2 res ev1 l B W
              ltac:(intros _; rewrite HT; discriminate) Hl
              ltac:(rewrite C1; exact Hn))
    as (-> & Cu & _ & Em & _ & t & Ht & Y).
  rewrite C1. unfold ending_of, frame_of, trace_of in *. cbn [fst snd] in *.
  repeat split; try assumption.
  exists t. split; [exact Ht|].
  rewrite yielded_app. cbn [yielded]. rewrite Y. reflexivity.
Qed.

Lemma missing_next_cursor_raises_witness :
  ending_of
    (query_all "works" 20 (PyStr "*") None
       ([] ++ ok_page {| total_results := Some 100; items := Some twenty;
                         next_cursor := None; start_index := None |}
           :: []))
  = Raised (KeyError "next-cursor").
Proof.
  destruct (missing_next_cursor_raises "works" 20 (PyStr "*") None [] []
              {| total_results := Some 100; items := Some twenty;
                 next_cursor := None; start_index := None |}
              twenty 100 20 (mkParams (Some (PyStr "*")) None)
              eq_refl eq_refl eq_refl eq_refl eq_refl)
    as (E & _).
  exact E.
Defined.

(** X7: in offset mode the [assert] on [start-index] comes after the
    [yield from]: when it fails, the items of the inconsistent page were
    already yielded to the consumer, and neither the offset nor the
    progress bar has moved. *)
Theorem assertion_after_yield (c : string) (b : Z) (cur : cursor_value)
    (mx : option Z) (pre rest : list api_result) (m : message)
    (l : list item) (T i rw : Z) (p : params) :
  truthy cur = false ->
  ending_of (query_all c b cur mx pre) = Awaiting rw p ->
  items m = Some l ->
  total_results m = Some T ->
  start_index m = Some i ->
  p_offset p <> Some i ->
  let r0 := query_all c b cur mx pre in
  let r := query_all c b cur mx (pre ++ ok_page m :: rest) in
  ending_of r = Raised AssertionError
  /\ offset (frame_of r) = p_offset p
  /\ emitted (frame_of r) = emitted (frame_of r0)
  /\ exists t,
       total (frame_of r) = Some t
       /\ yielded (trace_of r)
          = yielded (trace_of r0)
            ++ slice_to l (t - emitted (frame_of r0)).
Proof.
  intros C A Hl HT Hi Ne. cbv zeta.
  destruct (awaiting_frame c b cur mx pre rw p A)
    as (_ & P1 & _ & _ & _ & _ & W & Mode & Step).
  rewrite C in Mode. destruct Mode as [C1 O1].
  assert (C1' : truthy (cursor (frame_of (query_all c b cur mx pre))) = false)
    by (rewrite C1; exact C).
  destruct (params_of_offset_mode _ C1' O1) as (o & Ho & P1').
  rewrite P1 in P1'. injection P1' as ->. cbn [p_offset] in Ne |- *.
  rewrite (Step (ok_page m) rest).
  destruct (loop_body (ok_page m) (frame_of (query_all c b cur mx pre)))
    as [[res s2] ev1] eqn:B.
  destruct (loop_body_position_raise m _ s2 res ev1 l B W
              ltac:(intros _; rewrite HT; discriminate) Hl
              ltac:(rewrite C1'; exists o, i; repeat split;
                    [exact Ho|exact Hi|congruence]))
    as (-> & _ & Of & Em & _ & t & Ht & Y).
  rewrite C1'. unfold ending_of, frame_of, trace_of in *.
  cbn [fst snd] in *.
  repeat split; try assumption; try congruence.
  exists t. split; [exact Ht|].
  rewrite yielded_app. cbn [yielded]. rewrite Y. reflexivity.
Qed.

Lemma assertion_after_yield_witness :
  ending_of
    (query_all "works" 20 PyNone None
       ([] ++ ok_page {| total_results := Some 100; items := Some twenty;
                         next_cursor := None; start_index := Some 7 |}
           :: []))
  = Raised AssertionError.
Proof.
  destruct (assertion_after_yield "works" 20 PyNone None [] []
              {| total_results := Some 100; items := Some twenty;
                 next_cursor := None; start_index := Some 7 |}
              twenty 100 7 20 (mkParams None (Some 0))
              eq_refl eq_refl eq_refl eq_refl eq_refl
              ltac:(simpl; discriminate))
    as (E & _).
  exact E.
Defined.

(** ** Retrying *)

Lemma reset_idle (s : locals) :
  successive_errors s = 0 ->
  rows s = batch_size s ->
  set_rows (batch_size s) (set_successive_errors 0 s) = s.
Proof. intros E R. destruct s; cbn in *. subst. reflexivity. Qed.

Lemma loop_not_ok (results : list payload) :
  forall (s : locals) (p : params),
  Forall (fun result => status_ok result = false) results ->
  incomplete s = true ->
  params_of s = inr p ->
  successive_errors s = 0 ->
  rows s = batch_size s ->
  loop (map (fun result => ApiResponse 200 (Some result)) results) s
  = (Awaiting (batch_size s) p, s,
     repeat (Request (component s) (batch_size s) p) (List.length results)).
Proof.
  induction results as [|result results IH]; intros s p F I P E R.
  - cbn [map List.length repeat]. rewrite (loop_nil s p I P), R.
    reflexivity.
  - inversion F as [|? ? O Fs]; subst. cbn [map List.length repeat].
    rewrite (loop_step _ _ s p I P), (loop_body_not_ok result s O).
    rewrite (reset_idle s E R), (IH s p Fs I P E R), R. reflexivity.
Qed.

Lemma sleeps_repeat_request (c : string) (rw : Z) (p : params) (k : nat) :
  sleeps (repeat (Request c rw p) k) = []
  /\ yielded (repeat (Request c rw p) k) = []
  /\ requests (repeat (Request c rw p) k) = repeat (rw, p) k.
Proof.
  induction k as [|k (S & Y & Q)]; [repeat split|].
  cbn. rewrite Q. auto.
Qed.

(** X8: payloads whose status is not ["ok"] are retried at once: however
    many come in a row from the start, the run never sleeps, yields
    nothing, and sends the very same request again each time. *)
Theorem not_ok_never_sleeps (c : string) (b : Z) (cur : cursor_value)
    (mx : option Z) (results : list payload) :
  Forall (fun result => status_ok result = false) results ->
  let r := query_all c b cur mx
             (map (fun result => ApiResponse 200 (Some result)) results) in
  ending_of r = Awaiting b (first_params cur)
  /\ sleeps (trace_of r) = []
  /\ yielded (trace_of r) = []
  /\ requests (trace_of r)
     = repeat (b, first_params cur) (List.length results).
Proof.
  intros F. cbv zeta. unfold query_all.
  rewrite (loop_not_ok results (initial c b cur mx) (first_params cur) F
             eq_refl (params_of_initial c b cur mx) eq_refl eq_refl).
  unfold ending_of, trace_of. cbn [fst snd batch_size component initial].
  destruct (sleeps_repeat_request c b (first_params cur)
              (List.length results)) as (S & Y & Q).
  auto.
Qed.

Lemma not_ok_never_sleeps_witness :
  sleeps
    (trace_of
       (query_all "works" 20 PyNone None
          (map (fun result => ApiResponse 200 (Some result))
             [not_ok_payload; not_ok_payload; not_ok_payload])))
  = [].
Proof.
  destruct (not_ok_never_sleeps "works" 20 PyNone None
              [not_ok_payload; not_ok_payload; not_ok_payload]
              ltac:(repeat constructor)) as (_ & S & _).
  exact S.
Defined.




(** ** How a run ends *)

(** A run that raised did so either while building the parameters, or in
    the pass over one response, reached in a frame that was waiting. *)
Lemma raised_decompose (script : list api_result) :
  forall (s s2 : locals) (x : exn) (ev : list event),
  loop script s = (Raised x, s2, ev) ->
  (incomplete s2 = true /\ params_of s2 = inl x)
  \/ exists pre response rest s1 rw p ev0 ev1,
       script = pre ++ response :: rest
       /\ loop pre s = (Awaiting rw p, s1, ev0)
       /\ loop_body response s1 = (inl x, s2, ev1).
Proof.
  induction script as [|r script IH]; intros s s2 x ev H.
  - left. simpl in H. destruct (incomplete s) eqn:I; [|discriminate].
    rewrite build_params_eq in H.
    destruct (params_of s) as [y|p] eqn:P; [|discriminate].
    injection H as <- <- _. auto.
  - simpl in H. destruct (incomplete s) eqn:I; [|discriminate].
    rewrite build_params_eq in H.
    destruct (params_of s) as [y|p] eqn:P.
    { left. injection H as <- <- _. auto. }
    simpl in H.
    destruct (loop_body r s) as [[[y|[]] s1] ev1] eqn:B.
    + injection H as <- <- <-. right.
      exists [], r, script, s, (rows s), p, [], ev1.
      rewrite (loop_nil s p I P). auto.
    + destruct (loop script s1) as [[e' s3] ev3] eqn:L.
      injection H as -> <- <-.
      destruct (IH s1 s3 x ev3 L)
        as [[I3 P3]|(pre & r' & rest & s4 & rw & q & ev0 & ev4 & -> & Lp & Bp)].
      * left. auto.
      * right. exists (r :: pre), r', rest, s4, rw, q,
          (Request (component s) (rows s) p :: ev1 ++ ev0), ev4.
        repeat split; try assumption.
        rewrite (loop_step r pre s p I P), B, Lp. reflexivity.
Qed.

(** The exceptions a pass can raise, by the frame it starts in. *)
Lemma loop_body_raise_kinds (response : api_result) (s s' : locals)
    (x : exn) (ev : list event) :
  loop_body response s = (inl x, s', ev) ->
  (progress_bar s <> None -> total s <> None) ->
  (truthy (cursor s) = false -> offset s <> None) ->
  x = JSONDecodeError
  \/ x = KeyError "message"
  \/ x = KeyError "total-results"
  \/ x = KeyError "items"
  \/ (truthy (cursor s) = true /\ x = KeyError "next-cursor")
  \/ (truthy (cursor s) = false /\ x = AssertionError).
Proof.
  intros H. remember (inl x) as res eqn:R. revert R.
  destruct response as [|code [[st [[tr its nc si]|]]|]].
  all: loop_body_all_cases H; intros R W O; try discriminate.
  all: injection R as <-.
  all: first [ exfalso; apply W; [discriminate|reflexivity]
             | exfalso; apply O; reflexivity
             | auto 10 ].
Qed.

Lemma params_of_raise (s : locals) (x : exn) :
  params_of s = inl x ->
  x = NameError "offset" /\ truthy (cursor s) = false /\ offset s = None.
Proof.
  unfold params_of. destruct (truthy (cursor s)); [discriminate|].
  destruct (offset s); [discriminate|]. intros H. injection H as <-. auto.
Qed.

(** X10: which mode an exception belongs to.  No run ends on reading
    [total] or [progress_bar] unassigned: the only [NameError] is the one on
    [offset], and it needs a true [cursor] argument; so does the [KeyError]
    of [next-cursor]; and [AssertionError] needs a false one. *)
Theorem exceptions_by_mode (c : string) (b : Z) (cur : cursor_value)
    (mx : option Z) (script : list api_result) (x : exn) :
  ending_of (query_all c b cur mx script) = Raised x ->
  (forall v, x = NameError v -> v = "offset" /\ truthy cur = true)
  /\ (x = KeyError "next-cursor" -> truthy cur = true)
  /\ (x = AssertionError -> truthy cur = false).
Proof.
  intros H.
  assert (D : x = JSONDecodeError
              \/ x = KeyError "message"
              \/ x = KeyError "total-results"
              \/ x = KeyError "items"
              \/ if truthy cur
                 then x = KeyError "next-cursor" \/ x = NameError "offset"
                 else x = AssertionError).
  { revert H. unfold query_all. set (s0 := initial c b cur mx).
    destruct (loop script s0) as [[e s2] ev] eqn:L.
    unfold ending_of. cbn [fst]. intros ->.
    destruct (raised_decompose script s0 s2 x ev L)
      as [[I2 P2]|(pre & r & rest & s1 & rw & p & ev0 & ev1 & -> & Lp & B)].
    - destruct (params_of_raise s2 x P2) as (-> & C2 & O2).
      do 4 right. destruct (truthy cur) eqn:C; [right; reflexivity|].
      exfalso.
      assert (O0 : offset s0 <> None) by (cbn; rewrite C; discriminate).
      destruct (loop_offset_mode script s0 s2 _ ev C O0 L) as (_ & _ & _ & N).
      apply N. reflexivity.
    - assert (A : ending_of (query_all c b cur mx pre) = Awaiting rw p).
      { unfold query_all. fold s0. rewrite Lp. reflexivity. }
      destruct (awaiting_frame c b cur mx pre rw p A)
        as (_ & _ & _ & _ & _ & _ & W & Mode & _).
      unfold query_all in W, Mode. fold s0 in W, Mode.
      rewrite Lp in W, Mode. unfold frame_of in W, Mode. cbn [fst snd] in *.
      destruct (truthy cur) eqn:C.
      + destruct Mode as [O1 C1].
        destruct (loop_body_raise_kinds r s1 s2 x ev1 B W
                    ltac:(intros C1'; congruence))
          as [K|[K|[K|[K|[[_ K]|[C1' K]]]]]]; auto 10.
        congruence.
      + destruct Mode as [Cu O1].
        assert (C1 : truthy (cursor s1) = false) by (rewrite Cu; exact C).
        destruct (loop_body_raise_kinds r s1 s2 x ev1 B W (fun _ => O1))
          as [K|[K|[K|[K|[[C1' K]|[_ K]]]]]]; auto 10.
        congruence. }
  destruct (truthy cur).
  - split; [|split].
    + intros v E.
      destruct D as [->|[->|[->|[->|[->| ->]]]]]; try discriminate.
      injection E as <-. split; reflexivity.
    + intros _. reflexivity.
    + intros E. destruct D as [->|[->|[->|[->|[->| ->]]]]]; discriminate.
  - split; [|split].
    + intros v E. destruct D as [->|[->|[->|[->| ->]]]]; discriminate.
    + intros E. destruct D as [->|[->|[->|[->| ->]]]]; discriminate.
    + intros _. reflexivity.
Qed.

Lemma exceptions_by_mode_witness :
  (forall v, NameError "offset" = NameError v ->
             v = "offset" /\ truthy (PyStr "*") = true)
  /\ (NameError "offset" = KeyError "next-cursor" -> truthy (PyStr "*") = true)
  /\ (NameError "offset" = AssertionError -> truthy (PyStr "*") = false).
Proof.
  exact (exceptions_by_mode "works" 20 (PyStr "*") None
           [page 100 fifteen (Some PyNone) None] (NameError "offset") eq_refl).
Defined.

(** A run that ended cleanly did so in the pass over one response, reached
    in a frame that was waiting. *)
Lemma exhausted_decompose (script : list api_result) :
  forall (s s2 : locals) (ev : list event),
  loop script s = (Exhausted, s2, ev) ->
  incomplete s = true ->
  exists pre response rest s1 rw p ev0 ev1,
    script = pre ++ response :: rest
    /\ loop pre s = (Awaiting rw p, s1, ev0)
    /\ loop_body response s1 = (inr tt, s2, ev1)
    /\ incomplete s2 = false
    /\ ev = ev0 ++ Request (component s1) rw p :: ev1.
Proof.
  induction script as [|r script IH]; intros s s2 ev H I.
  - simpl in H. rewrite I, build_params_eq in H.
    destruct (params_of s); discriminate.
  - simpl in H. rewrite I, build_params_eq in H.
    destruct (params_of s) as [y|p] eqn:P; [discriminate|]. simpl in H.
    destruct (loop_body r s) as [[[y|[]] s1] ev1] eqn:B; [discriminate|].
    destruct (loop script s1) as [[e' s3] ev3] eqn:L.
    injection H as -> <- <-.
    destruct (incomplete s1) eqn:I1.
    + destruct (IH s1 s3 ev3 L I1)
        as (pre & r' & rest & s4 & rw & q & ev0 & ev4 & -> & Lp & Bp & I3 & ->).
      exists (r :: pre), r', rest, s4, rw, q,
        (Request (component s) (rows s) p :: ev1 ++ ev0), ev4.
      repeat split; try assumption.
      * rewrite (loop_step r pre s p I P), B, Lp. reflexivity.
      * cbn [app]. rewrite <- app_assoc. reflexivity.
    + rewrite (loop_done script s1 I1) in L. injection L as <- <-.
      exists [], r, script, s, (rows s), p, [], ev1.
      rewrite (loop_nil s p I P), app_nil_r. auto.
Qed.

(** X13: a run only ends cleanly in the pass over an ["ok"] page from
    which nothing is taken: never on an empty script, on a failure or on a
    not-ok payload.  So the clean end costs one request after the last item
    was yielded; the responses after that page are never asked for, and the
    run ends with [total] known, no error counted and the full page
    size. *)
Theorem clean_end_needs_page (c : string) (b : Z) (cur : cursor_value)
    (mx : option Z) (script : list api_result) :
  let r := query_all c b cur mx script in
  ending_of r = Exhausted ->
  exists pre m rest,
    script = pre ++ ok_page m :: rest
    /\ query_all c b cur mx (pre ++ [ok_page m]) = r
    /\ yielded (trace_of r) = yielded (trace_of (query_all c b cur mx pre))
    /\ List.length (requests (trace_of r)) = S (List.length pre)
    /\ total (frame_of r) <> None
    /\ successive_errors (frame_of r) = 0
    /\ rows (frame_of r) = b.
Proof.
  cbv zeta. unfold query_all. set (s0 := initial c b cur mx).
  destruct (loop script s0) as [[e s2] ev] eqn:L.
  unfold ending_of, frame_of, trace_of. cbn [fst snd]. intros ->.
  destruct (exhausted_decompose script s0 s2 ev L eq_refl)
    as (pre & r & rest & s1 & rw & p & ev0 & ev1 & -> & Lp & B & I2 & ->).
  destruct (loop_awaiting pre s0 s1 rw p ev0 Lp) as (I1 & P1 & Rw).
  destruct (loop_keeps pre s0 s1 _ ev0 Lp) as (_ & Ba & _).
  destruct (loop_requests_length pre s0 s1 rw p ev0 Lp) as (Len & _ & _).
  destruct (loop_body_frame r s1 s2 _ ev1 B) as (_ & _ & _ & Rq & _).
  destruct (loop_body_cases r s1 s2 ev1 B)
    as [F|[(result & -> & O)|(m & ->)]].
  - exfalso. rewrite (loop_body_failure r s1 F) in B. injection B as <- <-.
    destruct s1; cbn in *. congruence.
  - exfalso. rewrite (loop_body_not_ok result s1 O) in B.
    injection B as <- <-. destruct s1; cbn in *. congruence.
  - exists pre, m, rest.
    destruct (loop_body_ok_page m s1 s2 ev1 B)
      as (l & t & b0 & _ & Ht & _ & Hev & _ & Hi & Er & Ro & _).
    rewrite Lp. cbn [snd].
    assert (Y : yielded ev1 = []).
    { rewrite Hev, yielded_page_events
        by (destruct (progress_bar s1); reflexivity).
      rewrite I2 in Hi. symmetry in Hi.
      apply negb_false_iff, Nat.eqb_eq in Hi.
      apply length_zero_iff_nil. exact Hi. }
    repeat split.
    + rewrite (loop_app pre [ok_page m] s0 s1 rw p ev0 Lp).
      rewrite (loop_step (ok_page m) [] s1 p I1 P1), B.
      rewrite (loop_done [] s2 I2), app_nil_r. subst rw. reflexivity.
    + rewrite yielded_app. cbn [yielded]. rewrite Y. apply app_nil_r.
    + rewrite requests_app. cbn [requests].
      rewrite Rq, length_app, Len. cbn. lia.
    + rewrite Ht. discriminate.
    + exact Er.
    + rewrite Ro. exact Ba.
Qed.

Lemma clean_end_needs_page_witness :
  exists pre m rest,
    [page 0 [] None None; ApiRaises] = pre ++ ok_page m :: rest
    /\ query_all "works" 20 PyNone None (pre ++ [ok_page m])
       = query_all "works" 20 PyNone None [page 0 [] None None; ApiRaises].
Proof.
  destruct (clean_end_needs_page "works" 20 PyNone None
              [page 0 [] None None; ApiRaises] eq_refl)
    as (pre & m & rest & E & Q & _).
  exists pre, m, rest. split; [exact E|exact Q].
Defined.

(** ** A negative cap *)




(** ** The HTTP side: [api_query] *)

Lemma http_gets_app (a b : list event) :
  http_gets (a ++ b) = http_gets a ++ http_gets b.
Proof.
  induction a as [|e a IH]; [reflexivity|].
  destruct e; simpl; rewrite IH; reflexivity.
Qed.

Lemma http_gets_no_request (ev : list event) :
  requests ev = [] -> http_gets ev = [].
Proof.
  induction ev as [|e ev IH]; [reflexivity|].
  destruct e; simpl; try exact IH. discriminate.
Qed.

(** The GETs of a run, from its frame at the start. *)
Lemma loop_http_gets (script : list api_result) :
  forall (s s2 : locals) (e : ending) (ev : list event),
  loop script s = (e, s2, ev) ->
  Forall
    (fun g =>
       url g = ("https://api.crossref.org/" ++ component s)%string
       /\ timeout g = 60
       /\ exists rw p, In (rw, p) (requests ev)
                       /\ query g = ("rows", IntValue rw) :: params_items p)
    (http_gets ev).
Proof.
  induction script as [|r script IH]; intros s s2 e ev H.
  - destruct (loop_nil_cases s) as (e' & L & _). rewrite L in H.
    injection H as <- <- <-. constructor.
  - simpl in H. destruct (incomplete s);
      [|injection H as <- <- <-; constructor].
    rewrite build_params_eq in H.
    destruct (params_of s) as [x|p];
      [injection H as <- <- <-; constructor|].
    simpl in H.
    destruct (loop_body r s) as [[res s1] ev1] eqn:B.
    destruct (loop_body_frame r s s1 res ev1 B) as (Co & _ & _ & Rq & _).
    pose proof (http_gets_no_request ev1 Rq) as G1.
    assert (Here : url (call_api_query (component s) (rows s) p)
                   = ("https://api.crossref.org/" ++ component s)%string
                   /\ timeout (call_api_query (component s) (rows s) p) = 60)
      by (split; reflexivity).
    destruct res as [x|[]].
    + injection H as <- <- <-. cbn [http_gets requests]. rewrite G1, Rq.
      constructor; [|constructor].
      destruct Here as [U Ti]. repeat split; try assumption.
      exists (rows s), p. split; [left; reflexivity|reflexivity].
    + destruct (loop script s1) as [[e' s3] ev3] eqn:L.
      injection H as <- <- <-.
      specialize (IH s1 s3 e' ev3 L). rewrite Co in IH.
      cbn [http_gets requests].
      rewrite http_gets_app, requests_app, G1, Rq. cbn [app].
      constructor.
      * destruct Here as [U Ti]. repeat split; try assumption.
        exists (rows s), p. split; [left; reflexivity|reflexivity].
      * eapply Forall_impl; [|exact IH].
        intros g (U & Ti & rw & q & Hin & Q). repeat split; try assumption.
        exists rw, q. split; [right; exact Hin|exact Q].
Qed.

(** X12: every GET of a run goes to the one URL
    [https://api.crossref.org/<component>], with the default timeout of 60,
    and its query string has exactly two keys: [rows], then [cursor] when
    the [cursor] argument is true and [offset] otherwise. *)
Theorem every_get (c : string) (b : Z) (cur : cursor_value)
    (mx : option Z) (script : list api_result) :
  Forall
    (fun g =>
       url g = ("https://api.crossref.org/" ++ c)%string
       /\ timeout g = 60
       /\ map fst (query g)
          = if truthy cur then ["rows"; "cursor"] else ["rows"; "offset"])
    (http_gets (trace_of (query_all c b cur mx script))).
Proof.
  unfold query_all. set (s0 := initial c b cur mx).
  destruct (loop script s0) as [[e s2] ev] eqn:L.
  unfold trace_of. cbn [snd].
  pose proof (loop_http_gets script s0 s2 e ev L) as G.
  eapply Forall_impl; [|exact G].
  intros g (U & Ti & rw & p & Hin & Q).
  split; [exact U|]. split; [exact Ti|]. rewrite Q. cbn [map fst].
  destruct (truthy cur) eqn:C.
  - assert (O0 : offset s0 = None) by (cbn; rewrite C; reflexivity).
    destruct (loop_cursor_mode script s0 s2 e ev O0 L) as [_ F].
    rewrite Forall_forall in F.
    destruct (F _ Hin) as (Of & cu & Cu & _). cbn [snd] in Of, Cu.
    unfold params_items. rewrite Of, Cu. reflexivity.
  - assert (O0 : offset s0 <> None) by (cbn; rewrite C; discriminate).
    destruct (loop_offset_mode script s0 s2 e ev C O0 L) as (_ & _ & F & _).
    rewrite Forall_forall in F.
    destruct (F _ Hin) as (Cu & o & Of). cbn [snd] in Of, Cu.
    unfold params_items. rewrite Of, Cu. reflexivity.
Qed.

(** ** What the progress bar is told *)

Lemma bar_creates_app (a b : list event) :
  bar_creates (a ++ b) = bar_creates a ++ bar_creates b.
Proof.
  induction a as [|e a IH]; [reflexivity|].
  destruct e; simpl; rewrite IH; reflexivity.
Qed.

Lemma bar_updates_app (a b : list event) :
  bar_updates (a ++ b) = bar_updates a ++ bar_updates b.
Proof.
  induction a as [|e a IH]; [reflexivity|].
  destruct e; simpl; rewrite IH; reflexivity.
Qed.

Lemma bar_map_Yield (l : list item) :
  bar_creates (map Yield l) = [] /\ bar_updates (map Yield l) = [].
Proof. induction l as [|x l [IH1 IH2]]; simpl; auto. Qed.

Lemma loop_body_bar (response : api_result) (s s' : locals)
    (res : exn + unit) (ev : list event) :
  loop_body response s = (res, s', ev) ->
  bar_iff_total s ->
  bar_iff_total s'
  /\ match total s with
     | Some t => total s' = Some t /\ bar_creates ev = []
     | None =>
         bar_creates ev
         = match total s' with
           | Some t => [(component s, t)]
           | None => []
           end
     end
  /\ (res = inr tt ->
      fold_right Z.add 0 (bar_updates ev)
      = Z.of_nat (List.length (yielded ev))).
Proof.
  intros H. unfold bar_iff_total.
  destruct response as [|code [[st [[tr its nc si]|]]|]].
  all: loop_body_all_cases H; intros [W1 W2]; simp_goal.
  all: try (exfalso; discriminate (W1 eq_refl)).
  all: try (exfalso; discriminate (W2 eq_refl)).
  all: rewrite ?bar_creates_app, ?bar_updates_app, ?yielded_app.
  all: cbn [bar_creates bar_updates yielded app fold_right].
  all: rewrite ?bar_creates_app, ?bar_updates_app, ?yielded_app,
         ?yielded_map_Yield, ?app_nil_r.
  all: repeat match goal with
         | |- context [bar_creates (map Yield ?l)] =>
             rewrite (proj1 (bar_map_Yield l))
         | |- context [bar_updates (map Yield ?l)] =>
             rewrite (proj2 (bar_map_Yield l))
         end.
  all: cbn [bar_creates bar_updates yielded app fold_right List.length].
  all: rewrite ?app_nil_r, ?Z.add_0_r.
  all: repeat split; try reflexivity; try discriminate; try assumption.
  all: try (intros; discriminate).
  all: match goal with
       | E : total _ = _ |- _ =>
           cbn in E; first [discriminate | injection E as <-; reflexivity]
       end.
Qed.

Lemma loop_bar (script : list api_result) :
  forall (s s2 : locals) (e : ending) (ev : list event),
  bar_iff_total s ->
  loop script s = (e, s2, ev) ->
  match total s with
  | Some t => total s2 = Some t /\ bar_creates ev = []
  | None =>
      bar_creates ev
      = match total s2 with
        | Some t => [(component s, t)]
        | None => []
        end
  end
  /\ (not_raised e ->
      fold_right Z.add 0 (bar_updates ev)
      = Z.of_nat (List.length (yielded ev))).
Proof.
  assert (Base : forall s : locals,
            match total s with
            | Some t => total s = Some t /\ bar_creates [] = []
            | None =>
                bar_creates []
                = match total s with
                  | Some t => [(component s, t)]
                  | None => []
                  end
            end
            /\ (fold_right Z.add 0 (bar_updates [])
                = Z.of_nat (List.length (yielded [])))).
  { intros s. destruct (total s) eqn:T; cbn; auto. }
  induction script as [|r script IH]; intros s s2 e ev W H.
  - destruct (loop_nil_cases s) as (e' & L & _). rewrite L in H.
    injection H as <- <- <-. destruct (Base s) as [B1 B2]. auto.
  - simpl in H. destruct (incomplete s).
    2:{ injection H as <- <- <-. destruct (Base s) as [B1 B2]. auto. }
    rewrite build_params_eq in H.
    destruct (params_of s) as [x|p].
    { injection H as <- <- <-. destruct (Base s) as [B1 B2]. auto. }
    simpl in H.
    destruct (loop_body r s) as [[res s1] ev1] eqn:B.
    destruct (loop_body_bar r s s1 res ev1 B W) as (W1 & Cr & Up).
    destruct (loop_body_frame r s s1 res ev1 B) as (Co & _).
    destruct res as [x|[]].
    + injection H as <- <- <-. cbn [bar_creates].
      split; [exact Cr|]. intros [].
    + destruct (loop script s1) as [[e' s3] ev3] eqn:L.
      injection H as <- <- <-.
      destruct (IH s1 s3 e' ev3 W1 L) as [Cr3 Up3].
      cbn [bar_creates bar_updates yielded].
      rewrite bar_creates_app, bar_updates_app, yielded_app.
      split.
      * destruct (total s) as [t|].
        -- destruct Cr as [T1 C1]. rewrite T1 in Cr3.
           destruct Cr3 as [T3 C3]. rewrite C1, C3. auto.
        -- destruct (total s1) as [t1|].
           ++ destruct Cr3 as [T3 C3]. rewrite Cr, C3, T3. reflexivity.
           ++ rewrite Cr, Cr3, Co. reflexivity.
      * intros N. specialize (Up eq_refl). specialize (Up3 N).
        rewrite length_app, Nat2Z.inj_add, <- Up, <- Up3.
        clear. induction (bar_updates ev1) as [|k l IHl]; cbn; lia.
Qed.

(** X14: what the progress bar is told.  It is created at most once, when
    [total] is assigned and with that total and the component as its
    description; and in a run that has not raised the amounts passed to
    [update] add up to the number of items yielded. *)
Theorem progress_reports (c : string) (b : Z) (cur : cursor_value)
    (mx : option Z) (script : list api_result) :
  let r := query_all c b cur mx script in
  bar_creates (trace_of r)
  = match total (frame_of r) with
    | Some t => [(c, t)]
    | None => []
    end
  /\ (not_raised (ending_of r) ->
      fold_right Z.add 0 (bar_updates (trace_of r))
      = Z.of_nat (List.length (yielded (trace_of r)))).
Proof.
  cbv zeta. unfold query_all. set (s0 := initial c b cur mx).
  destruct (loop script s0) as [[e s2] ev] eqn:L.
  unfold frame_of, trace_of, ending_of. cbn [fst snd].
  assert (W0 : bar_iff_total s0) by (split; reflexivity).
  exact (loop_bar script s0 s2 e ev W0 L).
Qed.

Lemma progress_reports_witness :
  fold_right Z.add 0
    (bar_updates
       (trace_of
          (query_all "works" 20 PyNone None
             [ApiResponse 500 None; page 100 fifteen None (Some 0)])))
  = Z.of_nat
      (List.length
         (yielded
            (trace_of
               (query_all "works" 20 PyNone None
                  [ApiResponse 500 None; page 100 fifteen None (Some 0)])))).
Proof.
  exact (proj2 (progress_reports "works" 20 PyNone None
                  [ApiResponse 500 None; page 100 fifteen None (Some 0)])
           I).
Defined.

(** ** Failures do not touch the data *)








(** X16: in cursor mode the cursor is not lost over retries: however many
    failures and not-ok payloads follow an ["ok"] page, the request the run
    waits with carries the [next-cursor] of that page. *)
Theorem cursor_kept_over_retries (c : string) (b : Z) (cur : cursor_value)
    (mx : option Z) (pre again : list api_result) (m : message)
    (rw rw' : Z) (p p' : params) :
  truthy cur = true ->
  Forall (fun r => retried r = true) again ->
  ending_of (query_all c b cur mx pre) = Awaiting rw p ->
  ending_of (query_all c b cur mx (pre ++ ok_page m :: again))
  = Awaiting rw' p' ->
  exists nc,
    next_cursor m = Some nc
    /\ p' = {| p_cursor := Some nc; p_offset := None |}.
Proof.
  intros C F A A'.
  destruct (awaiting_frame c b cur mx pre rw p A)
    as (_ & _ & _ & _ & _ & _ & _ & Mode & Step).
  rewrite C in Mode. destruct Mode as [O1 C1].
  rewrite (Step (ok_page m) again) in A'.
  destruct (loop_body (ok_page m) (frame_of (query_all c b cur mx pre)))
    as [[[x|[]] s2] ev1] eqn:B; [discriminate|].
  destruct (loop_body_ok_page m _ s2 ev1 B)
    as (l & t & b0 & _ & _ & _ & _ & _ & _ & _ & _ & _ & _ & _ & Pos).
  rewrite C1 in Pos. destruct Pos as [Nc O2]. rewrite O1 in O2.
  destruct (loop again s2) as [[e s3] ev3] eqn:L.
  unfold ending_of in A'. cbn [fst] in A'. subst e.
  destruct (incomplete s2) eqn:I2.
  2:{ rewrite (loop_done again s2 I2) in L. discriminate. }
  destruct (params_of s2) as [x|q] eqn:P2.
  { rewrite (loop_params_raise again s2 x I2 P2) in L. discriminate. }
  destruct (loop_retried again s2 q F I2 P2) as (s3' & ev3' & L3 & _).
  rewrite L3 in L. injection L as <- <- _ _.
  destruct (params_of_cursor_mode s2 q O2 P2) as [_ ->].
  exists (cursor s2). auto.
Qed.

Lemma cursor_kept_over_retries_witness :
  exists nc,
    Some (PyStr "abc") = Some nc
    /\ {| p_cursor := Some (PyStr "abc"); p_offset := None |}
       = {| p_cursor := Some nc; p_offset := None |}.
Proof.
  exact (cursor_kept_over_retries "works" 20 (PyStr "*") None []
           [ApiRaises; ApiResponse 200 (Some not_ok_payload); ApiRaises]
           {| total_results := Some 100; items := Some twenty;
              next_cursor := Some (PyStr "abc"); start_index := None |}
           20 15
           {| p_cursor := Some (PyStr "*"); p_offset := None |}
           {| p_cursor := Some (PyStr "abc"); p_offset := None |}
           eq_refl ltac:(repeat constructor) eq_refl eq_refl).
Defined.
